(** * fontsearch: which installed fonts support a code point

    A shallow embedding of [fontsearch.py].  Python [str] values are
    [string]s (a sequence of characters with ordinals below 256, as
    PostScript glyph names and the bytes of POSIX paths are, [ord]
    being the character's code), integers are [Z], the [cmap]
    dictionary of a subtable is a [gmap] from code points to glyph
    names, and the generator
    [get_supporting_fonts] is a computation that records what it
    yields, what it prints on stderr and which files it opens, and
    ends either normally or with the exception that escaped. *)

From Stdlib Require Import ZArith Ascii String List Bool Lia.
From stdpp Require Import base gmap strings list sorting.

Import ListNotations.
Local Open Scope Z_scope.

(** ** Python built-ins used by the program *)

Module Py.

(** [ord(c)] for a one-character string. *)
Definition ord (c : ascii) : Z := Z.of_nat (nat_of_ascii c).

(** [len(s)] *)
Definition len (s : string) : Z := Z.of_nat (String.length s).

(** [c in s] for a character [c], as a proposition. *)
Fixpoint occurs (c : ascii) (s : string) : Prop :=
  match s with
  | EmptyString => False
  | String a s' => a = c \/ occurs c s'
  end.

(** [s.rfind(c)] for a one-character separator: the highest index at
    which [c] occurs, [-1] when it does not occur. *)
Fixpoint rfind (c : ascii) (s : string) : Z :=
  match s with
  | EmptyString => -1
  | String a s' =>
      let r := rfind c s' in
      if 0 <=? r then r + 1
      else if Ascii.eqb a c then 0 else -1
  end.

Fixpoint drop (n : nat) (s : string) : string :=
  match n, s with
  | O, _ => s
  | S _, EmptyString => EmptyString
  | S n', String _ s' => drop n' s'
  end.

Fixpoint take (n : nat) (s : string) : string :=
  match n, s with
  | O, _ => EmptyString
  | S _, EmptyString => EmptyString
  | S n', String a s' => String a (take n' s')
  end.

(** The slices [s[i:]] and [s[:i]].  The program only slices at
    indices that are not negative; a negative index is clamped to 0
    here and is never reached. *)
Definition slice_from (i : Z) (s : string) : string := drop (Z.to_nat i) s.
Definition slice_to (i : Z) (s : string) : string := take (Z.to_nat i) s.

(** [s.rsplit(c, 1)]: at most one split, at the last occurrence. *)
Definition rsplit1 (c : ascii) (s : string) : list string :=
  let i := rfind c s in
  if i <? 0 then [s] else [slice_to i s; slice_from (i + 1) s].

(** [s.startswith(c)] for a one-character prefix. *)
Definition startswith (c : ascii) (s : string) : bool :=
  match s with
  | String a _ => Ascii.eqb a c
  | EmptyString => false
  end.

(** [s.endswith(c)] for a one-character suffix. *)
Fixpoint endswith (c : ascii) (s : string) : bool :=
  match s with
  | EmptyString => false
  | String a EmptyString => Ascii.eqb a c
  | String _ s' => endswith c s'
  end.

(** The character class [[0-9A-F]] of the regular expression. *)
Definition is_upper_hex (c : ascii) : bool :=
  let n := ord c in
  ((48 <=? n) && (n <=? 57)) || ((65 <=? n) && (n <=? 70)).

Fixpoint all_chars (p : ascii -> bool) (s : string) : bool :=
  match s with
  | EmptyString => true
  | String a s' => p a && all_chars p s'
  end.

(** [re.fullmatch(r'uni[0-9A-F]+', key)], as the truth value of the
    match object: the whole of [key] is the literal [uni] followed
    by one or more characters of the class. *)
Definition fullmatch_uni_hex (key : string) : bool :=
  match key with
  | String a (String b (String c (String d ds))) =>
      Ascii.eqb a "u" && Ascii.eqb b "n" && Ascii.eqb c "i"
      && is_upper_hex d && all_chars is_upper_hex ds
  | _ => false
  end.

(** The value of one digit in base 16, both cases, as [int] reads it. *)
Definition hex_digit (c : ascii) : option Z :=
  let n := ord c in
  if (48 <=? n) && (n <=? 57) then Some (n - 48)
  else if (65 <=? n) && (n <=? 70) then Some (n - 55)
  else if (97 <=? n) && (n <=? 102) then Some (n - 87)
  else None.

Fixpoint int16_loop (acc : Z) (s : string) : option Z :=
  match s with
  | EmptyString => Some acc
  | String a s' =>
      match hex_digit a with
      | Some d => int16_loop (16 * acc + d) s'
      | None => None
      end
  end.

(** [int(s, 16)] on a string of digits; [None] is [ValueError].
    Python also accepts a sign, a [0x] prefix, underscores between
    digits and surrounding white space: the program calls [int] only
    behind the [fullmatch] guard, where none of these can occur. *)
Definition int16 (s : string) : option Z :=
  match s with
  | EmptyString => None
  | _ => int16_loop 0 s
  end.

End Py.

(** ** Decoded fonts, as fontTools hands them to the program *)

(** One subtable of the [cmap] table: what [isUnicode()] answers and
    the [cmap] dictionary from code points to glyph names. *)
Record CmapSubtable := {
  isUnicode : bool;
  cmap : gmap Z string
}.

(** One record of the [name] table; [name_string] is
    [string.decode(getEncoding())]. *)
Record NameRecord := {
  nameID : Z;
  name_string : string
}.

(** A [TTFont]: [font['cmap'].tables] and [font['name'].names]. *)
Record TTFont := {
  cmap_tables : list CmapSubtable;
  names : list NameRecord
}.

(** A [T1Font]: the keys of [getGlyphSet()], in iteration order. *)
Record T1Font := {
  glyph_names : list string
}.

(** [character in table.cmap] *)
Definition in_cmap (character : Z) (table : CmapSubtable) : bool :=
  bool_decide (is_Some (cmap table !! character)).

(** [is_supporting_ttf]: [any(table.isUnicode() and character in
    table.cmap for table in font['cmap'].tables)]. *)
Definition is_supporting_ttf (font : TTFont) (character : Z) : bool :=
  existsb (fun table => isUnicode table && in_cmap character table)
          (cmap_tables font).

(** ** Exceptions *)

(** A Python exception, by the name of its class. *)
Inductive exn := Exception (class_name : string).

(** What evaluating an expression gives: a value or a raised exception. *)
Inductive result (A : Type) :=
| Ok (a : A)
| Raise (e : exn).
Arguments Ok {A} a.
Arguments Raise {A} e.

#[global] Instance result_ret : MRet result := fun A a => Ok a.

#[global] Instance result_bind : MBind result := fun A B k r =>
  match r with
  | Ok a => k a
  | Raise e => Raise e
  end.

Definition of_option {A : Type} (e : exn) (o : option A) : result A :=
  match o with
  | Some a => Ok a
  | None => Raise e
  end.

(** ** Type 1 fonts *)

(** [ord(key)]: a [TypeError] unless [key] has exactly one character. *)
Definition ord_str (key : string) : result Z :=
  match key with
  | String c EmptyString => Ok (Py.ord c)
  | _ => Raise (Exception "TypeError")
  end.

(** The condition of the [if] in the loop of [is_supporting_t1], with
    the short-circuit evaluation of [and] and [or]:
    [(len(key) == 1 and character == ord(key))
     or (re.fullmatch(r'uni[0-9A-F]+', key)
         and character == int(key[3:], 16))]. *)
Definition key_matches (key : string) (character : Z) : result bool :=
  single ← (if Py.len key =? 1
            then o ← ord_str key; Ok (character =? o)
            else Ok false);
  if (single : bool) then Ok true
  else if Py.fullmatch_uni_hex key
       then v ← of_option (Exception "ValueError")
                          (Py.int16 (Py.slice_from 3 key));
            Ok (character =? v)
       else Ok false.

(** The [for] loop of [is_supporting_t1] over the keys of the glyph
    set: [return True] at the first key that matches, [return None]
    when the keys are exhausted.  [Some true], [Some false] and [None]
    stand for [True], [False] and [None]. *)
Fixpoint is_supporting_t1_loop (keys : list string) (character : Z)
  : result (option bool) :=
  match keys with
  | [] => Ok None
  | key :: keys' =>
      m ← key_matches key character;
      if (m : bool) then Ok (Some true)
      else is_supporting_t1_loop keys' character
  end.

Definition is_supporting_t1 (font : T1Font) (character : Z)
  : result (option bool) :=
  is_supporting_t1_loop (glyph_names font) character.

(** ** Family and subfamily *)

(** The loop of [get_ttf_family], started with the current values of
    [family] and [subfamily]; a [break] returns them as they are. *)
Fixpoint get_ttf_family_loop (records : list NameRecord)
    (family subfamily : string) : string * string :=
  match records with
  | [] => (family, subfamily)
  | name :: records' =>
      if nameID name =? 1 then
        if String.eqb family "" then
          get_ttf_family_loop records' (name_string name) subfamily
        else (family, subfamily)
      else if (nameID name =? 2) && negb (String.eqb family "") then
        (family, name_string name)
      else get_ttf_family_loop records' family subfamily
  end.

Definition get_ttf_family (font : TTFont) : string * string :=
  get_ttf_family_loop (names font) "" "".

(** [os.path] on POSIX, as [posixpath] and [genericpath] define it. *)
Module PosixPath.

(** [basename(p)]: [i = p.rfind('/') + 1; return p[i:]]. *)
Definition basename (p : string) : string :=
  let i := Py.rfind "/" p + 1 in
  Py.slice_from i p.

(** [p[i:j]] *)
Definition slice (i j : Z) (p : string) : string :=
  Py.take (Z.to_nat (j - i)) (Py.drop (Z.to_nat i) p).

(** The [while filenameIndex < dotIndex] loop of [_splitext], which
    skips leading dots: [true] when it finds a character that is not
    a dot (the [return] inside the loop); [steps] is
    [dotIndex - filenameIndex]. *)
Fixpoint splitext_loop (p : string) (filenameIndex : Z) (steps : nat) : bool :=
  match steps with
  | O => false
  | S steps' =>
      if negb (String.eqb (slice filenameIndex (filenameIndex + 1) p) ".")
      then true
      else splitext_loop p (filenameIndex + 1) steps'
  end.

(** [splitext(p)] *)
Definition splitext (p : string) : string * string :=
  let sepIndex := Py.rfind "/" p in
  let dotIndex := Py.rfind "." p in
  if (sepIndex <? dotIndex)
     && splitext_loop p (sepIndex + 1) (Z.to_nat (dotIndex - (sepIndex + 1)))
  then (Py.slice_to dotIndex p, Py.slice_from dotIndex p)
  else (p, "").

(** [join(a, b)] *)
Definition join (a b : string) : string :=
  if Py.startswith "/" b then b
  else if String.eqb a "" || Py.endswith "/" a then a +:+ b
  else a +:+ "/" +:+ b.

End PosixPath.

(** [get_t1_family]: [name] is the list that [rsplit] returns, which
    has one or two elements; [name[0]] of an empty list does not
    arise (see [rsplit1_shape]). *)
Definition get_t1_family (file_path : string) : string * string :=
  let name := Py.rsplit1 "-" (fst (PosixPath.splitext (PosixPath.basename file_path))) in
  match name with
  | [family; subfamily] => (family, subfamily)
  | family :: _ => (family, "")
  | [] => ("", "")
  end.

(** ** The generator [get_supporting_fonts] *)

(** What the generator does that its caller can observe, in order: it
    calls a fontTools constructor on a file, yields an identity, or
    prints a line on stderr. *)
Inductive event :=
| Decode (file_path : string)
| Yield (identity : string * string)
| Stderr (line : string).

(** A piece of the generator's body: the events so far, and the value
    it ends with or the exception that escapes it. *)
Definition gen (A : Type) : Type := (list event * result A)%type.

#[global] Instance gen_ret : MRet gen := fun A a => ([], Ok a).

#[global] Instance gen_bind : MBind gen := fun A B k g =>
  match g with
  | (t, Ok a) => let '(t', r) := k a in (t ++ t', r)
  | (t, Raise e) => (t, Raise e)
  end.

Definition emit (e : event) : gen unit := ([e], Ok tt).

Definition lift {A : Type} (r : result A) : gen A := ([], r).

(** A call [TTFont(file_path)], [TTCollection(file_path)] or
    [T1Font(file_path)]. *)
Definition construct {A : Type} (decoder : string -> result A)
    (file_path : string) : gen A :=
  ([Decode file_path], decoder file_path).

(** [for x in l: body] *)
Fixpoint for_each {A : Type} (l : list A) (body : A -> gen unit) : gen unit :=
  match l with
  | [] => mret tt
  | x :: l' => _ ← body x; for_each l' body
  end.

Definition events {A : Type} (g : gen A) : list event := fst g.
Definition outcome {A : Type} (g : gen A) : result A := snd g.

(** The identities a piece of the generator yields, in order. *)
Definition yielded (t : list event) : list (string * string) :=
  flat_map (fun e => match e with Yield i => [i] | _ => [] end) t.

(** The lines it prints on stderr, in order. *)
Definition diagnostics (t : list event) : list string :=
  flat_map (fun e => match e with Stderr l => [l] | _ => [] end) t.

(** The files it calls a constructor on, in order. *)
Definition decoded (t : list event) : list string :=
  flat_map (fun e => match e with Decode p => [p] | _ => [] end) t.

(** What the program takes from its environment: the home directory
    expansion, the directory walk ([os.walk] gives a triple of the
    directory's path, its subdirectories and its files for every
    directory below the root, nothing for a root that does not exist),
    and the three fontTools constructors, each returning the decoded
    font or raising.  A font that a constructor returns is decoded
    in full: reading its tables afterwards does not raise. *)
Record World := {
  expanduser : string -> string;
  walk : string -> list (string * list string * list string);
  new_TTFont : string -> result TTFont;
  new_TTCollection : string -> result (list TTFont);
  new_T1Font : string -> result T1Font
}.

Definition UNREADABLE_FILE_TYPES : gset string :=
  {[ ".pfa"; ".pfb"; ".gsf"; ".pcf" ]}.

(** [x in (a, b, ...)] for a tuple of strings. *)
Definition in_tuple (x : string) (t : list string) : bool :=
  existsb (String.eqb x) t.

(** The body of the innermost loop of [get_supporting_fonts]: one file
    [filename] of the directory [dirpath]. *)
Definition get_supporting_fonts_body (w : World) (code_point : Z)
    (dirpath filename : string) : gen unit :=
  let file_path := PosixPath.join dirpath filename in
  let file_extension := snd (PosixPath.splitext filename) in
  if in_tuple file_extension [".ttf"; ".otf"; ".woff2"] then
    font ← construct (new_TTFont w) file_path;
    if is_supporting_ttf font code_point
    then emit (Yield (get_ttf_family font))
    else mret tt
  else if String.eqb file_extension ".ttc" then
    font_collection ← construct (new_TTCollection w) file_path;
    for_each font_collection (fun font =>
      if is_supporting_ttf font code_point
      then emit (Yield (get_ttf_family font))
      else mret tt)
  else if String.eqb file_extension ".t1" then
    font ← construct (new_T1Font w) file_path;
    supporting ← lift (is_supporting_t1 font code_point);
    match supporting with
    | None => emit (Stderr ("Unable to determine support in " +:+ file_path))
    | Some true => emit (Yield (get_t1_family file_path))
    | Some false => mret tt
    end
  else if bool_decide (file_extension ∈ UNREADABLE_FILE_TYPES)
          || (String.eqb file_extension ".gz"
              && bool_decide
                   (snd (PosixPath.splitext (fst (PosixPath.splitext filename)))
                      ∈ UNREADABLE_FILE_TYPES)) then
    emit (Stderr ("Skipping unreadable " +:+ file_path))
  else mret tt.

(** [get_supporting_fonts]: the three directories, the directories
    below each of them, and the files of each directory. *)
Definition get_supporting_fonts (w : World) (code_point : Z) : gen unit :=
  for_each ["/usr/share/fonts";
            expanduser w "~/.local/share/fonts";
            expanduser w "~/.fonts"] (fun directory =>
    for_each (walk w directory) (fun '(dirpath, _, filenames) =>
      for_each filenames (fun filename =>
        get_supporting_fonts_body w code_point dirpath filename))).

(** ** Notions the properties are stated with *)

(** A name that is not made of dots only. *)
Definition has_non_dot (s : string) : Prop :=
  exists c, Py.occurs c s /\ c <> "."%char.

(** Rule (a) of the glyph-name convention: the name is one character
    long and that character's ordinal is the code point. *)
Definition single_character_name (name : string) (P : Z) : Prop :=
  exists c, name = String c "" /\ Py.ord c = P.

(** An uppercase hexadecimal digit: [0] to [9] or [A] to [F]. *)
Definition upper_hex_digit (c : ascii) : Prop :=
  Py.ord "0" <= Py.ord c <= Py.ord "9" \/ Py.ord "A" <= Py.ord c <= Py.ord "F".

Definition digit_value (c : ascii) : Z :=
  if Py.ord c <=? Py.ord "9" then Py.ord c - Py.ord "0"
  else Py.ord c - Py.ord "A" + 10.

(** The number a string of hexadecimal digits denotes: each digit
    weighs 16 to the power of the number of digits after it. *)
Fixpoint hex_value (ds : string) : Z :=
  match ds with
  | EmptyString => 0
  | String c ds' => digit_value c * 16 ^ Py.len ds' + hex_value ds'
  end.

(** Rule (b): the name is [uni] followed by one or more uppercase
    hexadecimal digits whose value is the code point. *)
Definition uni_name (name : string) (P : Z) : Prop :=
  exists ds, name = "uni" +:+ ds /\ ds <> ""
             /\ (forall c, Py.occurs c ds -> upper_hex_digit c)
             /\ hex_value ds = P.

(** A glyph name that stands for the code point under either rule. *)
Definition names_code_point (name : string) (P : Z) : Prop :=
  single_character_name name P \/ uni_name name P.

(** The scan of the name records in the specification's words: the
    subfamily is the first record with identifier 2 that follows the
    family record, unless a record with identifier 1 comes first. *)
Fixpoint subfamily_after (records : list NameRecord) : string :=
  match records with
  | [] => ""
  | r :: records' =>
      if nameID r =? 2 then name_string r
      else if nameID r =? 1 then ""
      else subfamily_after records'
  end.

(** ... and the family is the first record with identifier 1. *)
Fixpoint first_family_pair (records : list NameRecord) : string * string :=
  match records with
  | [] => ("", "")
  | r :: records' =>
      if nameID r =? 1 then (name_string r, subfamily_after records')
      else first_family_pair records'
  end.

(** The same scan, with the family being the first record with
    identifier 1 whose string is not empty. *)
Fixpoint first_named_family_pair (records : list NameRecord) : string * string :=
  match records with
  | [] => ("", "")
  | r :: records' =>
      if (nameID r =? 1) && negb (String.eqb (name_string r) "")
      then (name_string r, subfamily_after records')
      else first_named_family_pair records'
  end.

(** No family record with a name so far: every record with
    identifier 1 decodes to the empty string. *)
Definition no_named_family (records : list NameRecord) : Prop :=
  forall r, In r records -> nameID r = 1 -> name_string r = "".

(** Name records [(id=1,"Sans"), (id=2,"Bold"), (id=1,"Serif"),
    (id=2,"Italic")]. *)
Definition sans_bold_serif_italic : TTFont :=
  {| cmap_tables := [];
     names := [ {| nameID := 1; name_string := "Sans" |};
                {| nameID := 2; name_string := "Bold" |};
                {| nameID := 1; name_string := "Serif" |};
                {| nameID := 2; name_string := "Italic" |} ] |}.

(** Name records [(id=1,""), (id=1,"Serif"), (id=2,"Italic")]: the
    first family record decodes to the empty string. *)
Definition empty_then_serif : TTFont :=
  {| cmap_tables := [];
     names := [ {| nameID := 1; name_string := "" |};
                {| nameID := 1; name_string := "Serif" |};
                {| nameID := 2; name_string := "Italic" |} ] |}.

(** The files the three nested loops visit, in order, each with the
    path of its directory. *)
Definition files_visited (w : World) : list (string * string) :=
  flat_map (fun directory =>
    flat_map (fun '(dirpath, _, filenames) =>
      map (fun filename => (dirpath, filename)) filenames)
      (walk w directory))
    ["/usr/share/fonts";
     expanduser w "~/.local/share/fonts";
     expanduser w "~/.fonts"].

(** What the path for one decoded Unicode-mapped font does: it yields
    the font's identity when the font supports the code point. *)
Definition ttf_path (code_point : Z) (font : TTFont) : list event :=
  if is_supporting_ttf font code_point then [Yield (get_ttf_family font)] else [].

(** The extension is one the program decodes. *)
Definition decodable_extension (file_extension : string) : Prop :=
  In file_extension [".ttf"; ".otf"; ".woff2"; ".ttc"; ".t1"].

(** The extension is one of the unreadable types, or [.gz] around one
    of them. *)
Definition unreadable_extension (filename : string) : Prop :=
  let file_extension := snd (PosixPath.splitext filename) in
  In file_extension [".pfa"; ".pfb"; ".gsf"; ".pcf"]
  \/ (file_extension = ".gz"
      /\ In (snd (PosixPath.splitext (fst (PosixPath.splitext filename))))
            [".pfa"; ".pfb"; ".gsf"; ".pcf"]).

(** The constructor the program calls on the file raises [e]. *)
Definition decode_fails (w : World) (dirpath filename : string) (e : exn) : Prop :=
  let file_path := PosixPath.join dirpath filename in
  let file_extension := snd (PosixPath.splitext filename) in
  (In file_extension [".ttf"; ".otf"; ".woff2"] /\ new_TTFont w file_path = Raise e)
  \/ (file_extension = ".ttc" /\ new_TTCollection w file_path = Raise e)
  \/ (file_extension = ".t1" /\ new_T1Font w file_path = Raise e).

(** The identity comes from a font of the file for which the support
    check returned [True]. *)
Definition supported_identity (w : World) (code_point : Z)
    (dirpath filename : string) (identity : string * string) : Prop :=
  let file_path := PosixPath.join dirpath filename in
  let file_extension := snd (PosixPath.splitext filename) in
  (In file_extension [".ttf"; ".otf"; ".woff2"]
   /\ exists font, new_TTFont w file_path = Ok font
                   /\ is_supporting_ttf font code_point = true
                   /\ identity = get_ttf_family font)
  \/ (file_extension = ".ttc"
      /\ exists fonts font, new_TTCollection w file_path = Ok fonts
                            /\ In font fonts
                            /\ is_supporting_ttf font code_point = true
                            /\ identity = get_ttf_family font)
  \/ (file_extension = ".t1"
      /\ exists font, new_T1Font w file_path = Ok font
                      /\ is_supporting_t1 font code_point = Ok (Some true)
                      /\ identity = get_t1_family file_path).

(** ** Example fonts and an example installation *)

Definition name_record (id : Z) (s : string) : NameRecord :=
  {| nameID := id; name_string := s |}.

(** A font whose Unicode subtable maps code point 65. *)
Definition sans_bold : TTFont :=
  {| cmap_tables := [ {| isUnicode := true; cmap := {[ 65 := "A" ]} |} ];
     names := [ name_record 1 "Sans"; name_record 2 "Bold" ] |}.

(** A font that maps code point 65 in a symbol subtable only. *)
Definition dingbats : TTFont :=
  {| cmap_tables := [ {| isUnicode := false; cmap := {[ 65 := "a1" ]} |} ];
     names := [ name_record 1 "Dingbats"; name_record 2 "Regular" ] |}.

(** An installation with two files in [/usr/share/fonts]: [bad.ttf],
    on which [TTFont] raises, and after it [good.ttf], which decodes
    to [sans_bold].  [pair.ttc] decodes to a collection of two fonts
    and [Foo-Bold.t1] to a Type 1 font with the one glyph [B]. *)
Definition corrupt_batch : World :=
  {| expanduser := fun path => "/home/user" +:+ Py.slice_from 1 path;
     walk := fun directory =>
       if String.eqb directory "/usr/share/fonts"
       then [("/usr/share/fonts", [], ["bad.ttf"; "good.ttf"])]
       else [];
     new_TTFont := fun file_path =>
       if String.eqb file_path "/usr/share/fonts/good.ttf"
       then Ok sans_bold
       else Raise (Exception "TTLibError");
     new_TTCollection := fun file_path =>
       if String.eqb file_path "/usr/share/fonts/pair.ttc"
       then Ok [sans_bold; dingbats]
       else Raise (Exception "TTLibError");
     new_T1Font := fun file_path =>
       if String.eqb file_path "/usr/share/fonts/Foo-Bold.t1"
       then Ok {| glyph_names := ["B"] |}
       else Raise (Exception "T1Error") |}.

(** ** The command [main] and the interpreter check *)

(** The order of [sorted] on strings: [str] values compare
    lexicographically by the ordinals of their characters. *)
Definition str_le (a b : string) : Prop := String.le a b.

(** The order of [sorted] on (family, subfamily) tuples: tuples
    compare by their first components, and by their second ones when
    the first are equal. *)
Definition tuple_le (a b : string * string) : Prop :=
  str_le (fst a) (fst b) /\ (fst a = fst b -> str_le (snd a) (snd b)).

#[global] Instance str_le_dec : RelDecision str_le.
Proof. intros a b. unfold str_le. apply _. Defined.

#[global] Instance tuple_le_dec : RelDecision tuple_le.
Proof. intros a b. unfold tuple_le. apply _. Defined.






(** The test at the top of the module:
    [sys.executable.startswith(join(VIRTUALENVS_DIR, ''))]; when it
    is false the module prints a hint and calls [sys.exit(1)]. *)
Definition in_virtualenv (VIRTUALENVS_DIR executable : string) : bool :=
  String.prefix (PosixPath.join VIRTUALENVS_DIR "") executable.

(** The exit code of the interpreter check, [None] when the module
    goes on to define its functions. *)
Definition interpreter_check (VIRTUALENVS_DIR executable : string) : option Z :=
  if negb (in_virtualenv VIRTUALENVS_DIR executable) then Some 1 else None.

(** ** Further notions and examples *)

(** The extension is one of those on which a constructor is called. *)
Definition is_decodable (filename : string) : bool :=
  let file_extension := snd (PosixPath.splitext filename) in
  in_tuple file_extension [".ttf"; ".otf"; ".woff2"]
  || String.eqb file_extension ".ttc"
  || String.eqb file_extension ".t1".

(** The paths of the visited files with such an extension, in the
    order of the visit. *)
Definition decodable_files (w : World) : list string :=
  map (fun '(dirpath, filename) => PosixPath.join dirpath filename)
      (List.filter (fun '(_, filename) => is_decodable filename) (files_visited w)).

(** A font like [sans_bold] with the family name [Mono]. *)
Definition mono_regular : TTFont :=
  {| cmap_tables := [ {| isUnicode := true; cmap := {[ 65 := "A" ]} |} ];
     names := [ name_record 1 "Mono"; name_record 2 "Regular" ] |}.

(** An installation in which every file decodes: [/usr/share/fonts]
    has [sans.ttf] and, below it, [sans-copy.otf], both [sans_bold],
    a collection of [mono_regular] and [dingbats], a Type 1 font with
    the glyph [A] and an unreadable file; [~/.fonts] has a Type 1
    font with the glyph [B] only. *)
Definition tidy_installation : World :=
  {| expanduser := fun path => "/home/user" +:+ Py.slice_from 1 path;
     walk := fun directory =>
       if String.eqb directory "/usr/share/fonts"
       then [("/usr/share/fonts", ["more"],
              ["sans.ttf"; "pair.ttc"; "Serif-Italic.t1"; "old.pfb"]);
             ("/usr/share/fonts/more", [], ["sans-copy.otf"])]
       else if String.eqb directory "/home/user/.fonts"
       then [("/home/user/.fonts", [], ["Foo-Bold.t1"])]
       else [];
     new_TTFont := fun _ => Ok sans_bold;
     new_TTCollection := fun _ => Ok [mono_regular; dingbats];
     new_T1Font := fun file_path =>
       if String.eqb file_path "/usr/share/fonts/Serif-Italic.t1"
       then Ok {| glyph_names := ["A"; "space"] |}
       else Ok {| glyph_names := ["B"] |} |}.

(** * Properties *)

(** ** Strings: facts about the built-ins *)

Section StringFacts.

Lemma len_one (s : string) :
  (Py.len s =? 1) = true <-> exists c, s = String c EmptyString.
Proof.
  unfold Py.len. rewrite Z.eqb_eq. split.
  - destruct s as [|c [|c' s']]; simpl; intros H; try lia. eauto.
  - intros [c ->]. reflexivity.
Qed.

Lemma append_cons (a : ascii) (s t : string) :
  String a s +:+ t = String a (s +:+ t).
Proof. reflexivity. Qed.

Lemma append_empty_l (t : string) : "" +:+ t = t.
Proof. reflexivity. Qed.

Lemma append_nil_r (s : string) : s +:+ "" = s.
Proof.
  induction s as [|a s IH]; [reflexivity|].
  now rewrite append_cons, IH.
Qed.

Lemma append_assoc (s t u : string) : (s +:+ t) +:+ u = s +:+ t +:+ u.
Proof.
  induction s as [|a s IH]; [reflexivity|].
  now rewrite !append_cons, IH.
Qed.

Lemma length_append (s t : string) :
  String.length (s +:+ t) = (String.length s + String.length t)%nat.
Proof.
  induction s as [|a s IH]; [reflexivity|].
  rewrite append_cons. simpl. now rewrite IH.
Qed.

Lemma occurs_append (c : ascii) (s t : string) :
  Py.occurs c (s +:+ t) <-> Py.occurs c s \/ Py.occurs c t.
Proof.
  induction s as [|a s IH]; [rewrite append_empty_l; simpl; tauto|].
  rewrite append_cons. simpl. rewrite IH. tauto.
Qed.

Lemma drop_append (s t : string) : Py.drop (String.length s) (s +:+ t) = t.
Proof.
  induction s as [|a s IH]; [reflexivity|].
  rewrite append_cons. exact IH.
Qed.

Lemma take_append (s t : string) : Py.take (String.length s) (s +:+ t) = s.
Proof.
  induction s as [|a s IH]; [reflexivity|].
  rewrite append_cons. simpl. now rewrite IH.
Qed.

Lemma rfind_lower (c : ascii) (s : string) : -1 <= Py.rfind c s.
Proof.
  induction s as [|a s IH]; simpl; [lia|].
  destruct (0 <=? Py.rfind c s) eqn:E; [apply Z.leb_le in E; lia|].
  destruct (Ascii.eqb a c); lia.
Qed.

(** [rfind] answers [-1] exactly when the character does not occur. *)
Lemma rfind_absent (c : ascii) (s : string) :
  Py.rfind c s = -1 <-> ~ Py.occurs c s.
Proof.
  induction s as [|a s IH]; simpl; [tauto|].
  pose proof (rfind_lower c s) as Hlow.
  destruct (0 <=? Py.rfind c s) eqn:E.
  - apply Z.leb_le in E. split; [lia|]. intros Hno. exfalso.
    assert (Py.rfind c s = -1) by (apply IH; tauto). lia.
  - apply Z.leb_gt in E. assert (Hs : Py.rfind c s = -1) by lia.
    apply IH in Hs. destruct (Ascii.eqb a c) eqn:Ea.
    + apply Ascii.eqb_eq in Ea. split; [lia | tauto].
    + apply Ascii.eqb_neq in Ea. split; [tauto | reflexivity].
Qed.

(** Otherwise it is the position of the last occurrence: the string
    splits there into a left part, the character, and a right part
    in which the character does not occur. *)
Lemma rfind_split (c : ascii) (l r : string) :
  ~ Py.occurs c r ->
  Py.rfind c (l +:+ String c r) = Z.of_nat (String.length l).
Proof.
  intros Hr. induction l as [|a l IH].
  - rewrite append_empty_l. simpl. apply rfind_absent in Hr. rewrite Hr.
    simpl. now rewrite Ascii.eqb_refl.
  - rewrite append_cons. cbn [Py.rfind String.length]. rewrite IH.
    destruct (0 <=? Z.of_nat (String.length l)) eqn:E; [lia|].
    apply Z.leb_gt in E. lia.
Qed.

Lemma rfind_found (c : ascii) (s : string) :
  0 <= Py.rfind c s ->
  exists l r, s = l +:+ String c r /\ ~ Py.occurs c r
              /\ Py.rfind c s = Z.of_nat (String.length l).
Proof.
  induction s as [|a s IH]; simpl; [lia|].
  destruct (0 <=? Py.rfind c s) eqn:E.
  - apply Z.leb_le in E. destruct (IH E) as (l & r & -> & Hr & Hi).
    intros _. exists (String a l), r. repeat split; try assumption.
    rewrite Hi. simpl String.length. lia.
  - apply Z.leb_gt in E. destruct (Ascii.eqb a c) eqn:Ea; [|lia].
    apply Ascii.eqb_eq in Ea. subst a. intros _.
    exists EmptyString, s. repeat split.
    apply rfind_absent. pose proof (rfind_lower c s). lia.
Qed.

(** [rsplit] with a limit of one split returns one or two pieces. *)
Lemma rsplit1_shape (c : ascii) (s : string) :
  (~ Py.occurs c s /\ Py.rsplit1 c s = [s])
  \/ (exists l r, s = l +:+ String c r /\ ~ Py.occurs c r
                  /\ Py.rsplit1 c s = [l; r]).
Proof.
  unfold Py.rsplit1. destruct (Py.rfind c s <? 0) eqn:E.
  - left. apply Z.ltb_lt in E. split; [|reflexivity].
    apply rfind_absent. pose proof (rfind_lower c s). lia.
  - right. apply Z.ltb_ge in E.
    destruct (rfind_found c s E) as (l & r & -> & Hr & Hi).
    exists l, r. repeat split; try assumption. rewrite Hi.
    unfold Py.slice_to, Py.slice_from.
    replace (Z.to_nat (Z.of_nat (String.length l) + 1))
      with (String.length (l +:+ String c "")) by (rewrite length_append; simpl; lia).
    rewrite Nat2Z.id, take_append.
    replace (l +:+ String c r) with ((l +:+ String c "") +:+ r)
      by (now rewrite append_assoc).
    now rewrite drop_append.
Qed.

End StringFacts.

(** ** Paths *)

Section PathFacts.

Lemma basename_in_directory (d f : string) :
  ~ Py.occurs "/" f -> PosixPath.basename (d +:+ "/" +:+ f) = f.
Proof.
  intros Hf. unfold PosixPath.basename.
  change (d +:+ "/" +:+ f) with (d +:+ String "/" f).
  rewrite rfind_split by assumption. unfold Py.slice_from.
  replace (Z.to_nat (Z.of_nat (String.length d) + 1))
    with (String.length (d +:+ "/")) by (rewrite length_append; simpl; lia).
  replace (d +:+ String "/" f) with ((d +:+ "/") +:+ f)
    by (now rewrite append_assoc).
  apply drop_append.
Qed.

Lemma slice_one (pre : string) (a : ascii) (s : string) :
  PosixPath.slice (Z.of_nat (String.length pre))
                  (Z.of_nat (String.length pre) + 1)
                  (pre +:+ String a s)
  = String a "".
Proof.
  unfold PosixPath.slice. rewrite Nat2Z.id, drop_append.
  replace (Z.to_nat _) with 1%nat by lia. reflexivity.
Qed.

Lemma splitext_loop_finds (pre s rest : string) :
  has_non_dot s ->
  PosixPath.splitext_loop (pre +:+ s +:+ rest)
    (Z.of_nat (String.length pre)) (String.length s) = true.
Proof.
  revert pre. induction s as [|a s IH]; intros pre (c & Hc & Hdot).
  - destruct Hc.
  - rewrite append_cons. simpl PosixPath.splitext_loop. rewrite slice_one.
    destruct (String.eqb (String a "") ".") eqn:E; [|reflexivity].
    apply String.eqb_eq in E. injection E as ->. simpl.
    destruct Hc as [Hc | Hc]; [congruence|].
    replace (pre +:+ String "." (s +:+ rest))
      with ((pre +:+ ".") +:+ s +:+ rest) by (now rewrite append_assoc).
    replace (Z.of_nat (String.length pre) + 1)
      with (Z.of_nat (String.length (pre +:+ ".")))
      by (rewrite length_append; simpl; lia).
    apply IH. exists c. auto.
Qed.

(** [splitext] on a file name [stem.ext]: the extension starts at the
    last dot, provided something other than dots precedes it. *)
Lemma splitext_stem_ext (stem ext : string) :
  ~ Py.occurs "/" stem -> ~ Py.occurs "/" ext -> ~ Py.occurs "." ext ->
  has_non_dot stem ->
  PosixPath.splitext (stem +:+ "." +:+ ext) = (stem, "." +:+ ext).
Proof.
  intros Hs He Hd Hnd. unfold PosixPath.splitext.
  assert (Hsep : Py.rfind "/" (stem +:+ "." +:+ ext) = -1).
  { apply rfind_absent. rewrite occurs_append. simpl.
    intros [H | [H | H]]; [tauto | discriminate | tauto]. }
  rewrite Hsep.
  change (stem +:+ "." +:+ ext) with (stem +:+ String "." ext).
  rewrite rfind_split by assumption.
  replace (Z.to_nat (Z.of_nat (String.length stem) - (-1 + 1)))
    with (String.length stem) by lia.
  change (stem +:+ String "." ext) with ("" +:+ stem +:+ String "." ext).
  change (-1 + 1) with (Z.of_nat (String.length "")).
  rewrite splitext_loop_finds by assumption.
  replace (-1 <? Z.of_nat (String.length stem)) with true
    by (symmetry; apply Z.ltb_lt; lia).
  simpl andb. cbv iota. unfold Py.slice_to, Py.slice_from.
  rewrite Nat2Z.id, append_empty_l, take_append, drop_append. reflexivity.
Qed.

End PathFacts.

(** ** Unicode-mapped fonts *)

Lemma in_cmap_true (character : Z) (table : CmapSubtable) :
  in_cmap character table = true <-> is_Some (cmap table !! character).
Proof.
  unfold in_cmap. rewrite bool_decide_eq_true. reflexivity.
Qed.

(** C1: [is_supporting_ttf] answers [true] exactly when the code point
    is a key of the mapping of some subtable flagged as Unicode;
    subtables that are not flagged never contribute (removing them
    leaves the answer unchanged), and a font with no flagged subtable
    is answered [false]. *)
Theorem is_supporting_ttf_iff (font : TTFont) (P : Z) :
  (is_supporting_ttf font P = true <->
     exists table, In table (cmap_tables font) /\
                   isUnicode table = true /\
                   is_Some (cmap table !! P))
  /\ is_supporting_ttf font P =
       is_supporting_ttf
         {| cmap_tables := List.filter isUnicode (cmap_tables font);
            names := names font |} P
  /\ ((forall table, In table (cmap_tables font) -> isUnicode table = false) ->
      is_supporting_ttf font P = false).
Proof.
  unfold is_supporting_ttf. split; [|split].
  - rewrite existsb_exists. split.
    + intros (t & Hin & Ht). apply andb_true_iff in Ht as [Hu Hc].
      exists t. rewrite in_cmap_true in Hc. auto.
    + intros (t & Hin & Hu & Hc). exists t. split; [assumption|].
      apply andb_true_iff. rewrite in_cmap_true. auto.
  - simpl. induction (cmap_tables font) as [|t ts IH]; simpl; [reflexivity|].
    destruct (isUnicode t) eqn:Hu; simpl; rewrite ?Hu; simpl; rewrite IH; reflexivity.
  - intros Hnone. induction (cmap_tables font) as [|t ts IH]; simpl; [reflexivity|].
    rewrite (Hnone t) by (left; reflexivity). simpl.
    apply IH. intros t' Hin. apply Hnone. right. assumption.
Qed.

(** ** Family and subfamily of a Type 1 font *)

Lemma rsplit1_last (c : ascii) (l r : string) :
  ~ Py.occurs c r -> Py.rsplit1 c (l +:+ String c r) = [l; r].
Proof.
  intros Hr. unfold Py.rsplit1. rewrite rfind_split by assumption.
  replace (Z.of_nat (String.length l) <? 0) with false
    by (symmetry; apply Z.ltb_ge; lia).
  unfold Py.slice_to, Py.slice_from. rewrite Nat2Z.id, take_append.
  replace (Z.to_nat (Z.of_nat (String.length l) + 1))
    with (String.length (l +:+ String c "")) by (rewrite length_append; simpl; lia).
  replace (l +:+ String c r) with ((l +:+ String c "") +:+ r)
    by (now rewrite append_assoc).
  now rewrite drop_append.
Qed.

Lemma rsplit1_whole (c : ascii) (s : string) :
  ~ Py.occurs c s -> Py.rsplit1 c s = [s].
Proof.
  intros Hs. unfold Py.rsplit1. apply rfind_absent in Hs. now rewrite Hs.
Qed.

(** The base name of [directory/stem.ext] with its extension stripped
    is [stem]. *)
Lemma stem_of_path (directory stem ext : string) :
  ~ Py.occurs "/" stem -> ~ Py.occurs "/" ext -> ~ Py.occurs "." ext ->
  has_non_dot stem ->
  fst (PosixPath.splitext
         (PosixPath.basename (directory +:+ "/" +:+ stem +:+ "." +:+ ext)))
  = stem.
Proof.
  intros Hs He Hd Hnd. rewrite basename_in_directory.
  - now rewrite splitext_stem_ext.
  - rewrite occurs_append. simpl.
    intros [H | [H | H]]; [tauto | discriminate | tauto].
Qed.

(** C7: [get_t1_family] strips the extension from the base name and
    splits what is left at its last hyphen: with a hyphen, the part on
    its left is the family and the part on its right the subfamily;
    without one, the whole stripped base name is the family and the
    subfamily is empty.  For a path [directory/stem.ext] the stripped
    base name is [stem].  ["NotoSans-Bold.t1"] gives
    [("NotoSans", "Bold")] and ["NotoSans.t1"] gives [("NotoSans", "")]. *)
Theorem get_t1_family_last_hyphen (file_path : string) :
  let base := fst (PosixPath.splitext (PosixPath.basename file_path)) in
  (forall family subfamily,
      base = family +:+ "-" +:+ subfamily -> ~ Py.occurs "-" subfamily ->
      get_t1_family file_path = (family, subfamily))
  /\ (~ Py.occurs "-" base -> get_t1_family file_path = (base, ""))
  /\ (forall directory stem ext,
        file_path = directory +:+ "/" +:+ stem +:+ "." +:+ ext ->
        ~ Py.occurs "/" stem -> ~ Py.occurs "/" ext -> ~ Py.occurs "." ext ->
        has_non_dot stem ->
        base = stem)
  /\ get_t1_family "NotoSans-Bold.t1" = ("NotoSans", "Bold")
  /\ get_t1_family "NotoSans.t1" = ("NotoSans", "").
Proof.
  intros base. repeat split.
  - intros family subfamily Hbase Hsub. unfold get_t1_family.
    fold base. rewrite Hbase.
    change (family +:+ "-" +:+ subfamily) with (family +:+ String "-" subfamily).
    now rewrite rsplit1_last.
  - intros Hno. unfold get_t1_family. fold base.
    now rewrite rsplit1_whole.
  - intros directory stem ext -> Hs He Hd Hnd. now apply stem_of_path.
Qed.

(** The theorem at ["/usr/share/fonts/Noto-Sans-Bold.t1"]: the split
    is at the last of the two hyphens. *)
Lemma get_t1_family_last_hyphen_witness :
  get_t1_family "/usr/share/fonts/Noto-Sans-Bold.t1" = ("Noto-Sans", "Bold").
Proof.
  apply (proj1 (get_t1_family_last_hyphen "/usr/share/fonts/Noto-Sans-Bold.t1")).
  - reflexivity.
  - simpl. intros [H | [H | [H | [H | []]]]]; discriminate.
Defined.

(** ** Type 1 fonts: the glyph-name heuristic *)

Section GlyphNames.

Lemma is_upper_hex_iff (c : ascii) :
  Py.is_upper_hex c = true <-> upper_hex_digit c.
Proof.
  unfold Py.is_upper_hex, upper_hex_digit.
  change (Py.ord "0") with 48. change (Py.ord "9") with 57.
  change (Py.ord "A") with 65. change (Py.ord "F") with 70.
  cbv zeta. rewrite orb_true_iff, !andb_true_iff, !Z.leb_le. tauto.
Qed.

Lemma all_chars_iff (p : ascii -> bool) (s : string) :
  Py.all_chars p s = true <-> forall c, Py.occurs c s -> p c = true.
Proof.
  induction s as [|a s IH]; simpl.
  - split; [intros _ c [] | reflexivity].
  - rewrite andb_true_iff, IH. split.
    + intros [Ha Hs] c [<- | Hc]; auto.
    + intros H. split; [apply H; auto | intros c Hc; apply H; auto].
Qed.

Lemma hex_digit_upper (c : ascii) :
  upper_hex_digit c -> Py.hex_digit c = Some (digit_value c).
Proof.
  unfold upper_hex_digit, Py.hex_digit, digit_value.
  change (Py.ord "0") with 48. change (Py.ord "9") with 57.
  change (Py.ord "A") with 65. change (Py.ord "F") with 70.
  cbv zeta. intros [H | H].
  - replace (48 <=? Py.ord c) with true by (symmetry; apply Z.leb_le; lia).
    replace (Py.ord c <=? 57) with true by (symmetry; apply Z.leb_le; lia).
    reflexivity.
  - replace (Py.ord c <=? 57) with false by (symmetry; apply Z.leb_gt; lia).
    replace (65 <=? Py.ord c) with true by (symmetry; apply Z.leb_le; lia).
    replace (Py.ord c <=? 70) with true by (symmetry; apply Z.leb_le; lia).
    rewrite andb_false_r. simpl. f_equal. lia.
Qed.

(** [int] reads the digits from the left, multiplying what it has by
    16 at each digit; the result is the positional value. *)
Lemma int16_loop_value (ds : string) (acc : Z) :
  (forall c, Py.occurs c ds -> upper_hex_digit c) ->
  Py.int16_loop acc ds = Some (acc * 16 ^ Py.len ds + hex_value ds).
Proof.
  revert acc. induction ds as [|c ds IH]; intros acc Hds.
  - simpl. f_equal. unfold Py.len. simpl. lia.
  - simpl. rewrite hex_digit_upper by (apply Hds; simpl; auto).
    rewrite IH by (intros c' Hc'; apply Hds; simpl; auto). f_equal.
    unfold Py.len. simpl String.length. rewrite Nat2Z.inj_succ.
    rewrite Z.pow_succ_r by lia. ring.
Qed.

Lemma int16_value (ds : string) :
  ds <> "" -> (forall c, Py.occurs c ds -> upper_hex_digit c) ->
  Py.int16 ds = Some (hex_value ds).
Proof.
  intros Hne Hds. unfold Py.int16. destruct ds as [|c ds]; [congruence|].
  rewrite int16_loop_value by assumption. f_equal; lia.
Qed.

Lemma fullmatch_uni_hex_iff (key : string) :
  Py.fullmatch_uni_hex key = true <->
  exists ds, key = "uni" +:+ ds /\ ds <> ""
             /\ (forall c, Py.occurs c ds -> upper_hex_digit c).
Proof.
  split.
  - destruct key as [|a [|b [|c [|d ds]]]]; simpl; try discriminate.
    rewrite !andb_true_iff, !Ascii.eqb_eq.
    intros [[[[-> ->] ->] Hd] Hds]. exists (String d ds).
    split; [reflexivity|]. split; [discriminate|].
    intros c [<- | Hc]; [now apply is_upper_hex_iff|].
    apply is_upper_hex_iff. now apply (proj1 (all_chars_iff _ _) Hds).
  - intros (ds & -> & Hne & Hds). destruct ds as [|d ds]; [congruence|].
    change ("uni" +:+ String d ds)
      with (String "u" (String "n" (String "i" (String d ds)))).
    simpl. apply andb_true_iff. split.
    + apply is_upper_hex_iff, Hds. simpl. auto.
    + apply all_chars_iff. intros c Hc. apply is_upper_hex_iff, Hds.
      simpl. auto.
Qed.

(** The condition of the loop never raises, and holds exactly for a
    name that stands for the code point under rule (a) or rule (b). *)
Lemma key_matches_spec (key : string) (P : Z) :
  exists m, key_matches key P = Ok m
            /\ (m = true <-> names_code_point key P).
Proof.
  unfold key_matches, names_code_point.
  destruct (Py.len key =? 1) eqn:Hlen.
  - apply len_one in Hlen as [c ->]. simpl.
    destruct (P =? Py.ord c) eqn:HP.
    + exists true. split; [reflexivity|]. split; [|reflexivity].
      intros _. left. exists c. apply Z.eqb_eq in HP. auto.
    + exists false. split; [reflexivity|]. split; [discriminate|].
      apply Z.eqb_neq in HP.
      intros [(c' & [= <-] & Hc') | (ds & Hds & _)]; [congruence|].
      discriminate Hds.
  - assert (Hnot : ~ single_character_name key P).
    { intros (c & -> & _). discriminate Hlen. }
    simpl. destruct (Py.fullmatch_uni_hex key) eqn:Hre.
    + apply fullmatch_uni_hex_iff in Hre as (ds & -> & Hne & Hds).
      change (Py.slice_from 3 ("uni" +:+ ds)) with ds.
      rewrite int16_value by assumption. simpl.
      exists (P =? hex_value ds). split; [reflexivity|].
      rewrite Z.eqb_eq. split.
      * intros ->. right. exists ds. auto.
      * intros [H | (ds' & Heq & _ & _ & Hv)]; [tauto|].
        apply (inj (String.append "uni")) in Heq. now subst.
    + exists false. split; [reflexivity|]. split; [discriminate|].
      intros [H | (ds & -> & Hne & Hds & _)]; [tauto|].
      assert (Py.fullmatch_uni_hex ("uni" +:+ ds) = true)
        by (apply fullmatch_uni_hex_iff; eauto).
      congruence.
Qed.

(** The loop returns [True] when some key stands for the code point,
    and [None] when none does; it returns nothing else. *)
Lemma is_supporting_t1_loop_spec (keys : list string) (P : Z) :
  ((exists name, In name keys /\ names_code_point name P)
   /\ is_supporting_t1_loop keys P = Ok (Some true))
  \/ ((forall name, In name keys -> ~ names_code_point name P)
      /\ is_supporting_t1_loop keys P = Ok None).
Proof.
  induction keys as [|key keys IH]; simpl.
  - right. split; [intros name [] | reflexivity].
  - destruct (key_matches_spec key P) as (m & -> & Hm). simpl.
    destruct m.
    + left. split; [|reflexivity]. exists key. split; [auto | now apply Hm].
    + destruct IH as [[(name & Hin & Hn) ->] | [Hnone ->]].
      * left. split; [|reflexivity]. exists name. auto.
      * right. split; [|reflexivity]. intros name [<- | Hin]; [|auto].
        intros Hn. apply Hm in Hn. discriminate.
Qed.

End GlyphNames.

(** C4: [is_supporting_t1] never returns [False]: it returns [True]
    when some glyph name stands for the code point, and [None] when
    the glyph names are exhausted without a match; it raises nothing. *)
Theorem is_supporting_t1_never_false (font : T1Font) (P : Z) :
  is_supporting_t1 font P <> Ok (Some false)
  /\ (((exists name, In name (glyph_names font) /\ names_code_point name P)
       /\ is_supporting_t1 font P = Ok (Some true))
      \/ ((forall name, In name (glyph_names font) -> ~ names_code_point name P)
          /\ is_supporting_t1 font P = Ok None)).
Proof.
  unfold is_supporting_t1.
  destruct (is_supporting_t1_loop_spec (glyph_names font) P) as [[Hex Hr] | [Hno Hr]].
  - split; [rewrite Hr; discriminate | left; auto].
  - split; [rewrite Hr; discriminate | right; auto].
Qed.

(** C5: [is_supporting_t1] returns [True] exactly when the glyph set
    has a name that is (a) one character whose ordinal is the code
    point, or (b) [uni] followed by one or more uppercase hexadecimal
    digits whose value is the code point; so code point 65 is
    supported by a glyph set with the name [A], and by one with the
    name [uni0041]. *)
Theorem is_supporting_t1_supported_iff (font : T1Font) (P : Z) :
  (is_supporting_t1 font P = Ok (Some true) <->
     exists name, In name (glyph_names font)
                  /\ (single_character_name name P \/ uni_name name P))
  /\ (In "A" (glyph_names font) -> is_supporting_t1 font 65 = Ok (Some true))
  /\ (In "uni0041" (glyph_names font) -> is_supporting_t1 font 65 = Ok (Some true)).
Proof.
  assert (Hiff : forall Q, is_supporting_t1 font Q = Ok (Some true) <->
                 exists name, In name (glyph_names font) /\ names_code_point name Q).
  { intros Q. unfold is_supporting_t1.
    destruct (is_supporting_t1_loop_spec (glyph_names font) Q) as [[Hex Hr] | [Hno Hr]];
      rewrite Hr.
    - tauto.
    - split; [discriminate|]. intros (name & Hin & Hn). destruct (Hno name Hin Hn). }
  split; [apply Hiff | split]; intros Hin; apply Hiff.
  - exists "A". split; [assumption|]. left. exists "A"%char. split; reflexivity.
  - exists "uni0041". split; [assumption|]. right. exists "0041".
    split; [reflexivity|]. split; [discriminate|]. split; [|reflexivity].
    unfold upper_hex_digit. simpl.
    intros c [<- | [<- | [<- | [<- | []]]]]; vm_compute; intuition discriminate.
Qed.

(** The theorem at the glyph set [B], [uni0041] and code point 65. *)
Lemma is_supporting_t1_supported_iff_witness :
  is_supporting_t1 {| glyph_names := ["B"; "uni0041"] |} 65 = Ok (Some true).
Proof.
  apply (proj2 (proj2
           (is_supporting_t1_supported_iff {| glyph_names := ["B"; "uni0041"] |} 65))).
  simpl. right. left. reflexivity.
Defined.

(** ** Family and subfamily of a TrueType font *)

Section NameRecords.

(** While no family has a name, records are passed over. *)
Lemma get_ttf_family_loop_skip (pre rest : list NameRecord) (subfamily : string) :
  no_named_family pre ->
  get_ttf_family_loop (pre ++ rest) "" subfamily
  = get_ttf_family_loop rest "" subfamily.
Proof.
  induction pre as [|r pre IH]; intros Hpre; [reflexivity|].
  assert (Hpre' : no_named_family pre) by (intros x Hx; apply Hpre; right; exact Hx).
  simpl. destruct (nameID r =? 1) eqn:E1.
  - apply Z.eqb_eq in E1. rewrite (Hpre r) by (auto using in_eq). auto.
  - rewrite andb_false_r. auto.
Qed.

(** Once the family has a name it does not change, and the scan
    for the subfamily is the specification's. *)
Lemma get_ttf_family_loop_named (records : list NameRecord) (family : string) :
  family <> "" ->
  get_ttf_family_loop records family "" = (family, subfamily_after records).
Proof.
  intros Hf. apply String.eqb_neq in Hf.
  induction records as [|r records IH]; simpl; [reflexivity|]. rewrite Hf.
  destruct (nameID r =? 1) eqn:E1.
  - apply Z.eqb_eq in E1. rewrite E1. reflexivity.
  - destruct (nameID r =? 2); simpl; [reflexivity | exact IH].
Qed.

Lemma get_ttf_family_loop_refines (records : list NameRecord) :
  get_ttf_family_loop records "" "" = first_named_family_pair records.
Proof.
  induction records as [|r records IH]; simpl; [reflexivity|].
  destruct (nameID r =? 1) eqn:E1; simpl.
  - destruct (String.eqb (name_string r) "") eqn:E; simpl.
    + apply String.eqb_eq in E. rewrite E. exact IH.
    + apply String.eqb_neq in E. now apply get_ttf_family_loop_named.
  - rewrite andb_false_r. exact IH.
Qed.

Lemma first_named_is_first (records : list NameRecord) :
  (forall r, In r records -> nameID r = 1 -> name_string r <> "") ->
  first_named_family_pair records = first_family_pair records.
Proof.
  induction records as [|r records IH]; intros H; simpl; [reflexivity|].
  destruct (nameID r =? 1) eqn:E1; simpl.
  - apply Z.eqb_eq in E1.
    assert (Hr : name_string r <> "") by (apply H; auto using in_eq).
    apply String.eqb_neq in Hr. now rewrite Hr.
  - apply IH. intros x Hx. apply H. now right.
Qed.

Lemma subfamily_after_accepted (records : list NameRecord) :
  subfamily_after records <> "" ->
  exists mid r2 post, records = mid ++ r2 :: post /\ nameID r2 = 2
                      /\ name_string r2 = subfamily_after records.
Proof.
  induction records as [|r records IH]; simpl; [congruence|].
  destruct (nameID r =? 2) eqn:E2.
  - intros _. exists [], r, records. apply Z.eqb_eq in E2. auto.
  - destruct (nameID r =? 1); [congruence|]. intros H.
    destruct (IH H) as (mid & r2 & post & -> & H2 & Hs).
    exists (r :: mid), r2, post. auto.
Qed.

Lemma first_named_accepted (records : list NameRecord) :
  snd (first_named_family_pair records) <> "" ->
  exists pre r mid r2 post,
    records = pre ++ r :: mid ++ r2 :: post
    /\ nameID r = 1 /\ name_string r <> ""
    /\ name_string r = fst (first_named_family_pair records)
    /\ nameID r2 = 2
    /\ name_string r2 = snd (first_named_family_pair records).
Proof.
  induction records as [|r records IH]; simpl; [congruence|].
  destruct ((nameID r =? 1) && negb (String.eqb (name_string r) "")) eqn:E.
  - simpl. intros H. apply andb_true_iff in E as [E1 En].
    apply Z.eqb_eq in E1. apply negb_true_iff, String.eqb_neq in En.
    destruct (subfamily_after_accepted records H) as (mid & r2 & post & -> & H2 & Hs).
    exists [], r, mid, r2, post. auto 10.
  - intros H. destruct (IH H) as (pre & f & mid & r2 & post & -> & Hf).
    exists (r :: pre), f, mid, r2, post. auto.
Qed.

End NameRecords.

Lemma subfamily_after_stops (mid post : list NameRecord) (r : NameRecord) :
  (forall x, In x mid -> nameID x <> 1 /\ nameID x <> 2) ->
  subfamily_after (mid ++ r :: post)
  = if nameID r =? 2 then name_string r
    else if nameID r =? 1 then "" else subfamily_after post.
Proof.
  induction mid as [|x mid IH]; intros Hmid; [reflexivity|]. simpl.
  destruct (Hmid x (in_eq _ _)) as [H1 H2].
  apply Z.eqb_neq in H1, H2. rewrite H1, H2.
  apply IH. intros y Hy. apply Hmid. now right.
Qed.

(** C6, as the code has it: [get_ttf_family] takes as family the
    first record with nameID 1 whose string is not empty (records with
    nameID 1 and an empty string before it are passed over, and the
    family is empty when there is no such record), takes as subfamily
    the first record with nameID 2 after it, and stops at that pair; a
    further record with nameID 1 before any record with nameID 2 ends
    the scan with an empty subfamily.  When no record with nameID 1
    has an empty string this is the scan from the first record with
    nameID 1.  The records [(1,"Sans"), (2,"Bold"), (1,"Serif"),
    (2,"Italic")] give [("Sans","Bold")]. *)
Theorem get_ttf_family_first_named_pair (font : TTFont) :
  get_ttf_family font = first_named_family_pair (names font)
  /\ ((forall r, In r (names font) -> nameID r = 1 -> name_string r <> "") ->
      get_ttf_family font = first_family_pair (names font))
  /\ (no_named_family (names font) -> get_ttf_family font = ("", ""))
  /\ (forall pre family mid r post,
        names font = pre ++ family :: mid ++ r :: post ->
        no_named_family pre ->
        nameID family = 1 -> name_string family <> "" ->
        (forall x, In x mid -> nameID x <> 1 /\ nameID x <> 2) ->
        (nameID r = 2 -> get_ttf_family font = (name_string family, name_string r))
        /\ (nameID r = 1 -> get_ttf_family font = (name_string family, "")))
  /\ get_ttf_family sans_bold_serif_italic = ("Sans", "Bold").
Proof.
  unfold get_ttf_family. split; [apply get_ttf_family_loop_refines|].
  split; [|split; [|split; [|reflexivity]]].
  - intros Hall. rewrite get_ttf_family_loop_refines.
    now apply first_named_is_first.
  - intros Hnone. rewrite <- (app_nil_r (names font)).
    now rewrite get_ttf_family_loop_skip.
  - intros pre family mid r post -> Hpre H1 Hne Hmid.
    rewrite get_ttf_family_loop_skip by assumption. simpl.
    apply Z.eqb_eq in H1. rewrite H1. simpl.
    rewrite get_ttf_family_loop_named, subfamily_after_stops by assumption.
    split; intros Hr; rewrite Hr; reflexivity.
Qed.

(** The theorem at the records [(1,"Sans"), (2,"Bold"), (1,"Serif"),
    (2,"Italic")], none of which has an empty string. *)
Lemma get_ttf_family_first_named_pair_witness :
  get_ttf_family sans_bold_serif_italic
  = first_family_pair (names sans_bold_serif_italic).
Proof.
  apply (proj1 (proj2 (get_ttf_family_first_named_pair sans_bold_serif_italic))).
  simpl. intros r [<- | [<- | [<- | [<- | []]]]]; simpl; intros _; discriminate.
Defined.

(** C6 as it is stated fails on the records [(1,""), (1,"Serif"),
    (2,"Italic")]: the first record with nameID 1 has the empty
    string and a second record with nameID 1 follows before any
    record with nameID 2, so the stated scan ends with [("", "")];
    the code returns [("Serif", "Italic")]. *)
Lemma get_ttf_family_first_record_counterexample :
  first_family_pair (names empty_then_serif) = ("", "")
  /\ get_ttf_family empty_then_serif = ("Serif", "Italic")
  /\ get_ttf_family empty_then_serif <> first_family_pair (names empty_then_serif).
Proof.
  split; [reflexivity|]. split; [reflexivity|]. discriminate.
Qed.

(** C10: the empty string is the mark of "no family yet".  Records
    before the first record with nameID 1 and a non-empty string are
    passed over, those with nameID 1 and an empty string and those
    with nameID 2 included, so the scan goes on as if it started
    after them and adopts that later record as family; and a record
    with nameID 2 gives the subfamily only when a record with nameID 1
    and a non-empty string precedes it. *)
Theorem get_ttf_family_empty_sentinel (font : TTFont) :
  (forall pre rest,
      names font = pre ++ rest -> no_named_family pre ->
      get_ttf_family font
      = get_ttf_family {| cmap_tables := cmap_tables font; names := rest |})
  /\ (forall pre later rest,
        names font = pre ++ later :: rest -> no_named_family pre ->
        nameID later = 1 -> name_string later <> "" ->
        fst (get_ttf_family font) = name_string later)
  /\ (snd (get_ttf_family font) <> "" ->
      exists pre r mid r2 post,
        names font = pre ++ r :: mid ++ r2 :: post
        /\ nameID r = 1 /\ name_string r <> ""
        /\ name_string r = fst (get_ttf_family font)
        /\ nameID r2 = 2
        /\ name_string r2 = snd (get_ttf_family font))
  /\ get_ttf_family empty_then_serif = ("Serif", "Italic").
Proof.
  unfold get_ttf_family. split; [|split; [|split; [|reflexivity]]].
  - intros pre rest -> Hpre. simpl. now apply get_ttf_family_loop_skip.
  - intros pre later rest -> Hpre H1 Hne.
    rewrite get_ttf_family_loop_skip by assumption. simpl.
    apply Z.eqb_eq in H1. rewrite H1. simpl.
    now rewrite get_ttf_family_loop_named.
  - rewrite get_ttf_family_loop_refines. apply first_named_accepted.
Qed.

(** The theorem at the records [(1,""), (1,"Serif"), (2,"Italic")]:
    the family is the second record's. *)
Lemma get_ttf_family_empty_sentinel_witness :
  fst (get_ttf_family empty_then_serif) = "Serif".
Proof.
  apply (proj1 (proj2 (get_ttf_family_empty_sentinel empty_then_serif))
           [ {| nameID := 1; name_string := "" |} ]
           {| nameID := 1; name_string := "Serif" |}
           [ {| nameID := 2; name_string := "Italic" |} ]).
  - reflexivity.
  - intros r [<- | []] _. reflexivity.
  - reflexivity.
  - discriminate.
Defined.

(** ** The generator: sequencing and loops *)

Section Generator.

Lemma gen_bind_ret_l {A B : Type} (a : A) (k : A -> gen B) :
  (mret a ≫= k) = k a.
Proof.
  unfold mret, gen_ret, mbind, gen_bind. now destruct (k a).
Qed.

Lemma gen_bind_assoc {A B C : Type} (m : gen A) (k : A -> gen B) (h : B -> gen C) :
  ((m ≫= k) ≫= h) = (m ≫= fun a => k a ≫= h).
Proof.
  unfold mbind, gen_bind. destruct m as [t [a | e]]; [|reflexivity].
  destruct (k a) as [t' [b | e']]; [|reflexivity].
  destruct (h b) as [t'' r]. now rewrite app_assoc.
Qed.

Lemma gen_bind_raise {A B : Type} (t : list event) (e : exn) (k : A -> gen B) :
  ((t, Raise e) ≫= k) = (t, Raise e).
Proof. reflexivity. Qed.

Lemma gen_bind_ok {A B : Type} (t : list event) (a : A) (k : A -> gen B) :
  ((t, Ok a) ≫= k) = (t ++ events (k a), outcome (k a)).
Proof. unfold mbind, gen_bind, events, outcome. now destruct (k a). Qed.

Lemma for_each_ext {A : Type} (l : list A) (f g : A -> gen unit) :
  (forall x, In x l -> f x = g x) -> for_each l f = for_each l g.
Proof.
  induction l as [|x l IH]; intros H; cbn [for_each]; [reflexivity|].
  rewrite (H x) by (now left). rewrite IH; [reflexivity|].
  intros y Hy. apply H. now right.
Qed.

Lemma for_each_app {A : Type} (l1 l2 : list A) (body : A -> gen unit) :
  for_each (l1 ++ l2) body = (for_each l1 body ≫= fun _ => for_each l2 body).
Proof.
  induction l1 as [|x l1 IH].
  - rewrite app_nil_l. cbn [for_each]. now rewrite gen_bind_ret_l.
  - rewrite <- app_comm_cons. cbn [for_each]. now rewrite gen_bind_assoc, IH.
Qed.

Lemma for_each_map {A B : Type} (g : A -> B) (l : list A) (body : B -> gen unit) :
  for_each (map g l) body = for_each l (fun x => body (g x)).
Proof.
  induction l as [|x l IH]; cbn [for_each map]; [reflexivity | now rewrite IH].
Qed.

Lemma for_each_flat_map {A B : Type} (g : A -> list B) (l : list A)
    (body : B -> gen unit) :
  for_each (flat_map g l) body = for_each l (fun x => for_each (g x) body).
Proof.
  induction l as [|x l IH]; cbn [for_each flat_map]; [reflexivity|].
  now rewrite for_each_app, IH.
Qed.

(** The nested loops visit [files_visited], one file after the other. *)
Lemma get_supporting_fonts_files (w : World) (code_point : Z) :
  get_supporting_fonts w code_point
  = for_each (files_visited w)
             (fun '(dirpath, filename) =>
                get_supporting_fonts_body w code_point dirpath filename).
Proof.
  unfold get_supporting_fonts, files_visited.
  rewrite for_each_flat_map. apply for_each_ext. intros directory _.
  rewrite for_each_flat_map. apply for_each_ext. intros [[dirpath dirnames] filenames] _.
  now rewrite for_each_map.
Qed.

(** A loop whose body raises at [x] ends there: the events are those
    of the elements before [x] and of [x] up to the exception. *)
Lemma for_each_raises {A : Type} (before after : list A) (x : A)
    (body : A -> gen unit) (t : list event) (e : exn) :
  outcome (for_each before body) = Ok tt ->
  body x = (t, Raise e) ->
  for_each (before ++ x :: after) body
  = (events (for_each before body) ++ t, Raise e).
Proof.
  intros Hbefore Hx. rewrite for_each_app.
  destruct (for_each before body) as [tb rb]. simpl in Hbefore. subst rb.
  rewrite gen_bind_ok. cbn [for_each]. rewrite Hx, gen_bind_raise. reflexivity.
Qed.

(** Whatever a loop yields, its body yields for some element. *)
Lemma for_each_yield {A : Type} (l : list A) (body : A -> gen unit)
    (i : string * string) :
  In (Yield i) (events (for_each l body)) ->
  exists x, In x l /\ In (Yield i) (events (body x)).
Proof.
  induction l as [|x l IH]; cbn [for_each]; [intros []|].
  destruct (body x) as [t [[] | e]] eqn:Hx.
  - rewrite gen_bind_ok. unfold events at 1. simpl fst.
    rewrite in_app_iff. intros [H | H].
    + exists x. split; [now left | rewrite Hx; exact H].
    + destruct (IH H) as (y & Hy & Hi). exists y. split; [now right | exact Hi].
  - rewrite gen_bind_raise. intros H. exists x. split; [now left | rewrite Hx; exact H].
Qed.

(** The loop over the members of a collection never raises and
    concatenates what the path for one font does. *)
Lemma for_each_members (code_point : Z) (fonts : list TTFont) :
  for_each fonts (fun font =>
    if is_supporting_ttf font code_point
    then emit (Yield (get_ttf_family font))
    else mret tt)
  = (flat_map (ttf_path code_point) fonts, Ok tt).
Proof.
  induction fonts as [|font fonts IH]; simpl; [reflexivity|].
  rewrite IH. unfold ttf_path.
  destruct (is_supporting_ttf font code_point); reflexivity.
Qed.

End Generator.

(** ** The generator: one file *)

Section OneFile.

Variable w : World.
Variable code_point : Z.
Variables dirpath filename : string.

Local Abbreviation file_path := (PosixPath.join dirpath filename).
Local Abbreviation file_extension := (snd (PosixPath.splitext filename)).

Lemma unreadable_types_iff (x : string) :
  x ∈ UNREADABLE_FILE_TYPES <-> In x [".pfa"; ".pfb"; ".gsf"; ".pcf"].
Proof.
  unfold UNREADABLE_FILE_TYPES.
  rewrite !elem_of_union, !elem_of_singleton. simpl.
  intuition congruence.
Qed.

Lemma in_tuple_iff (x : string) (t : list string) :
  in_tuple x t = true <-> In x t.
Proof.
  unfold in_tuple. rewrite existsb_exists. split.
  - intros (y & Hy & E). apply String.eqb_eq in E. now subst.
  - intros H. exists x. split; [assumption | apply String.eqb_refl].
Qed.

Lemma in_tuple_false (x : string) (t : list string) :
  ~ In x t -> in_tuple x t = false.
Proof.
  intros H. destruct (in_tuple x t) eqn:E; [|reflexivity].
  apply in_tuple_iff in E. contradiction.
Qed.

Lemma body_ttf :
  In file_extension [".ttf"; ".otf"; ".woff2"] ->
  get_supporting_fonts_body w code_point dirpath filename
  = (font ← construct (new_TTFont w) file_path;
     if is_supporting_ttf font code_point
     then emit (Yield (get_ttf_family font))
     else mret tt).
Proof.
  intros H. apply in_tuple_iff in H. unfold get_supporting_fonts_body.
  cbv zeta. now rewrite H.
Qed.

Lemma body_ttc :
  file_extension = ".ttc" ->
  get_supporting_fonts_body w code_point dirpath filename
  = (font_collection ← construct (new_TTCollection w) file_path;
     for_each font_collection (fun font =>
       if is_supporting_ttf font code_point
       then emit (Yield (get_ttf_family font))
       else mret tt)).
Proof.
  intros H. unfold get_supporting_fonts_body.
  cbv zeta. now rewrite H.
Qed.

Lemma body_t1 :
  file_extension = ".t1" ->
  get_supporting_fonts_body w code_point dirpath filename
  = (font ← construct (new_T1Font w) file_path;
     supporting ← lift (is_supporting_t1 font code_point);
     match supporting with
     | None => emit (Stderr ("Unable to determine support in " +:+ file_path))
     | Some true => emit (Yield (get_t1_family file_path))
     | Some false => mret tt
     end).
Proof.
  intros H. unfold get_supporting_fonts_body.
  cbv zeta. now rewrite H.
Qed.

Lemma body_not_decodable :
  ~ decodable_extension file_extension ->
  get_supporting_fonts_body w code_point dirpath filename
  = if bool_decide (file_extension ∈ UNREADABLE_FILE_TYPES)
       || (String.eqb file_extension ".gz"
           && bool_decide
                (snd (PosixPath.splitext (fst (PosixPath.splitext filename)))
                   ∈ UNREADABLE_FILE_TYPES))
    then emit (Stderr ("Skipping unreadable " +:+ file_path))
    else mret tt.
Proof.
  intros H. unfold decodable_extension in H. simpl in H.
  unfold get_supporting_fonts_body. cbv zeta.
  rewrite in_tuple_false by (simpl; tauto).
  replace (String.eqb file_extension ".ttc") with false
    by (symmetry; apply String.eqb_neq; intros E; symmetry in E; tauto).
  replace (String.eqb file_extension ".t1") with false
    by (symmetry; apply String.eqb_neq; intros E; symmetry in E; tauto).
  reflexivity.
Qed.

Lemma unreadable_not_decodable :
  unreadable_extension filename -> ~ decodable_extension file_extension.
Proof.
  unfold unreadable_extension, decodable_extension. simpl.
  intros [H | [H _]] D; intuition congruence.
Qed.

Lemma body_ttf_ok (font : TTFont) :
  In file_extension [".ttf"; ".otf"; ".woff2"] ->
  new_TTFont w file_path = Ok font ->
  get_supporting_fonts_body w code_point dirpath filename
  = (Decode file_path :: ttf_path code_point font, Ok tt).
Proof.
  intros H Hf. rewrite body_ttf by assumption. unfold construct.
  rewrite Hf, gen_bind_ok. unfold ttf_path.
  destruct (is_supporting_ttf font code_point); reflexivity.
Qed.

Lemma body_ttc_ok (fonts : list TTFont) :
  file_extension = ".ttc" ->
  new_TTCollection w file_path = Ok fonts ->
  get_supporting_fonts_body w code_point dirpath filename
  = (Decode file_path :: flat_map (ttf_path code_point) fonts, Ok tt).
Proof.
  intros H Hf. rewrite body_ttc by assumption. unfold construct.
  rewrite Hf, gen_bind_ok, for_each_members. reflexivity.
Qed.

Lemma body_t1_ok (font : T1Font) :
  file_extension = ".t1" ->
  new_T1Font w file_path = Ok font ->
  get_supporting_fonts_body w code_point dirpath filename
  = (Decode file_path ::
       match is_supporting_t1 font code_point with
       | Ok (Some true) => [Yield (get_t1_family file_path)]
       | Ok None => [Stderr ("Unable to determine support in " +:+ file_path)]
       | _ => []
       end,
     Ok tt).
Proof.
  intros H Hf. rewrite body_t1 by assumption. unfold construct.
  rewrite Hf, gen_bind_ok. unfold is_supporting_t1.
  destruct (is_supporting_t1_loop_spec (glyph_names font) code_point)
    as [[_ ->] | [_ ->]]; reflexivity.
Qed.

(** A constructor that raises ends the body with its exception, after
    the attempt to decode and nothing else. *)
Lemma body_decode_fails (e : exn) :
  decode_fails w dirpath filename e ->
  get_supporting_fonts_body w code_point dirpath filename
  = ([Decode file_path], Raise e).
Proof.
  unfold decode_fails. cbv zeta.
  intros [[H Hf] | [[H Hf] | [H Hf]]].
  - rewrite body_ttf by assumption. unfold construct. now rewrite Hf.
  - rewrite body_ttc by assumption. unfold construct. now rewrite Hf.
  - rewrite body_t1 by assumption. unfold construct. now rewrite Hf.
Qed.

(** An identity that the body yields comes with a support check that
    returned [True]. *)
Lemma body_yield_supported (i : string * string) :
  In (Yield i) (events (get_supporting_fonts_body w code_point dirpath filename)) ->
  supported_identity w code_point dirpath filename i.
Proof.
  unfold supported_identity. cbv zeta.
  destruct (in_tuple file_extension [".ttf"; ".otf"; ".woff2"]) eqn:Ettf.
  { apply in_tuple_iff in Ettf.
    destruct (new_TTFont w file_path) as [font | e] eqn:Hf.
    - rewrite (body_ttf_ok font) by assumption. unfold ttf_path.
      destruct (is_supporting_ttf font code_point) eqn:Hs; simpl.
      + intros [H | [[= <-] | []]]; [discriminate|]. left. eauto 6.
      + intros [H | []]. discriminate.
    - rewrite (body_decode_fails e) by (left; auto).
      simpl. intros [H | []]. discriminate. }
  destruct (String.eqb file_extension ".ttc") eqn:Ettc.
  { apply String.eqb_eq in Ettc.
    destruct (new_TTCollection w file_path) as [fonts | e] eqn:Hf.
    - rewrite (body_ttc_ok fonts) by assumption. simpl.
      intros [H | H]; [discriminate|].
      apply in_flat_map in H as (font & Hin & H). unfold ttf_path in H.
      destruct (is_supporting_ttf font code_point) eqn:Hs; [|destruct H].
      destruct H as [[= <-] | []]. right. left. eauto 8.
    - rewrite (body_decode_fails e) by (right; left; auto).
      simpl. intros [H | []]. discriminate. }
  destruct (String.eqb file_extension ".t1") eqn:Et1.
  { apply String.eqb_eq in Et1.
    destruct (new_T1Font w file_path) as [font | e] eqn:Hf.
    - rewrite (body_t1_ok font) by assumption. simpl.
      destruct (is_supporting_t1 font code_point) as [[[|]|]|e'] eqn:Hs; simpl.
      + intros [H | [[= <-] | []]]; [discriminate|]. right. right. eauto 6.
      + intros [H | []]. discriminate.
      + intros [H | [H | []]]; discriminate.
      + intros [H | []]. discriminate.
    - rewrite (body_decode_fails e) by (right; right; auto).
      simpl. intros [H | []]. discriminate. }
  rewrite body_not_decodable.
  - destruct (_ || _); simpl.
    + intros [H | []]. discriminate.
    + intros [].
  - unfold decodable_extension. simpl.
    apply String.eqb_neq in Ettc, Et1.
    assert (Hn : ~ In file_extension [".ttf"; ".otf"; ".woff2"]).
    { intros Hin. apply in_tuple_iff in Hin. congruence. }
    simpl in Hn. intuition congruence.
Qed.

End OneFile.

(** ** The generator: the claims about files *)

(** A font whose only subtable is a symbol map that has the code
    point is answered [false]. *)
Lemma is_supporting_ttf_iff_witness : is_supporting_ttf dingbats 65 = false.
Proof.
  apply (proj2 (proj2 (is_supporting_ttf_iff dingbats 65))).
  simpl. intros table [<- | []]. reflexivity.
Defined.

(** C2, as the code has it: [get_supporting_fonts] has no handler, so
    when a constructor raises on a file the exception leaves the
    generator there.  What the earlier files yielded and printed has
    been produced, the failing file adds the attempt to decode and no
    diagnostic, and no later file is looked at. *)
Theorem decode_failure_propagates (w : World) (code_point : Z)
    (before after : list (string * string)) (dirpath filename : string)
    (e : exn) :
  files_visited w = before ++ (dirpath, filename) :: after ->
  outcome (for_each before (fun '(d, f) =>
             get_supporting_fonts_body w code_point d f)) = Ok tt ->
  decode_fails w dirpath filename e ->
  get_supporting_fonts w code_point
  = (events (for_each before (fun '(d, f) =>
               get_supporting_fonts_body w code_point d f))
       ++ [Decode (PosixPath.join dirpath filename)],
     Raise e).
Proof.
  intros Hfiles Hbefore Hfail. rewrite get_supporting_fonts_files, Hfiles.
  apply for_each_raises; [assumption|].
  now apply body_decode_fails.
Qed.

(** The theorem at the installation [corrupt_batch] and code point 65. *)
Lemma decode_failure_propagates_witness :
  get_supporting_fonts corrupt_batch 65
  = ([Decode "/usr/share/fonts/bad.ttf"], Raise (Exception "TTLibError")).
Proof.
  apply (decode_failure_propagates corrupt_batch 65
           [] [("/usr/share/fonts", "good.ttf")] "/usr/share/fonts" "bad.ttf").
  - reflexivity.
  - reflexivity.
  - left. split; [simpl; auto | reflexivity].
Defined.

(** C2 as it is stated fails on [corrupt_batch]: [TTFont] raises on
    [bad.ttf]; [good.ttf] comes after it and, processed on its own,
    yields [("Sans", "Bold")]; the generator ends with the exception
    at [bad.ttf], having printed no diagnostic and yielded nothing. *)
Lemma decode_failure_aborts_counterexample :
  files_visited corrupt_batch
  = [("/usr/share/fonts", "bad.ttf"); ("/usr/share/fonts", "good.ttf")]
  /\ decode_fails corrupt_batch "/usr/share/fonts" "bad.ttf" (Exception "TTLibError")
  /\ get_supporting_fonts_body corrupt_batch 65 "/usr/share/fonts" "good.ttf"
     = ([Decode "/usr/share/fonts/good.ttf"; Yield ("Sans", "Bold")], Ok tt)
  /\ outcome (get_supporting_fonts corrupt_batch 65) = Raise (Exception "TTLibError")
  /\ diagnostics (events (get_supporting_fonts corrupt_batch 65)) = []
  /\ yielded (events (get_supporting_fonts corrupt_batch 65)) = [].
Proof.
  split; [reflexivity|]. split; [left; split; [simpl; auto | reflexivity]|].
  split; [vm_compute; reflexivity|]. repeat split.
Qed.

(** C3: an identity is yielded only for a font whose support check
    returned [True], for every file the generator visits; and when the
    check of a Type 1 font returns [None] the file gives the
    diagnostic and no identity. *)
Theorem yield_only_when_supported (w : World) (code_point : Z) :
  (forall identity,
      In (Yield identity) (events (get_supporting_fonts w code_point)) ->
      exists dirpath filename,
        In (dirpath, filename) (files_visited w)
        /\ supported_identity w code_point dirpath filename identity)
  /\ (forall dirpath filename identity,
        In (Yield identity)
           (events (get_supporting_fonts_body w code_point dirpath filename)) ->
        supported_identity w code_point dirpath filename identity)
  /\ (forall dirpath filename font,
        snd (PosixPath.splitext filename) = ".t1" ->
        new_T1Font w (PosixPath.join dirpath filename) = Ok font ->
        is_supporting_t1 font code_point = Ok None ->
        get_supporting_fonts_body w code_point dirpath filename
        = ([Decode (PosixPath.join dirpath filename);
            Stderr ("Unable to determine support in "
                    +:+ PosixPath.join dirpath filename)],
           Ok tt)).
Proof.
  split; [|split].
  - intros identity. rewrite get_supporting_fonts_files. intros H.
    apply for_each_yield in H as ([dirpath filename] & Hin & H).
    exists dirpath, filename. split; [assumption|].
    now apply body_yield_supported.
  - intros dirpath filename identity. apply body_yield_supported.
  - intros dirpath filename font Hext Hfont Hnone.
    rewrite (body_t1_ok w code_point dirpath filename font) by assumption.
    now rewrite Hnone.
Qed.

(** The theorem at [Foo-Bold.t1], whose only glyph is [B], and code
    point 65: the check returns [None]. *)
Lemma yield_only_when_supported_witness :
  get_supporting_fonts_body corrupt_batch 65 "/usr/share/fonts" "Foo-Bold.t1"
  = ([Decode "/usr/share/fonts/Foo-Bold.t1";
      Stderr "Unable to determine support in /usr/share/fonts/Foo-Bold.t1"],
     Ok tt).
Proof.
  apply (proj2 (proj2 (yield_only_when_supported corrupt_batch 65))
           "/usr/share/fonts" "Foo-Bold.t1" {| glyph_names := ["B"] |});
    reflexivity.
Defined.

(** C8: a collection file gives, after the one attempt to decode it,
    what the path of a single font file gives for each member in turn
    ([ttf_path], which is what a [.ttf] file does once decoded): the
    identities of the members that support the code point, in order,
    one for each such member.  Of two members of which one supports
    the code point, exactly that one's identity is yielded; a member
    listed twice is yielded twice. *)
Theorem collection_members_independent (w : World) (code_point : Z)
    (dirpath filename : string) (fonts : list TTFont) :
  snd (PosixPath.splitext filename) = ".ttc" ->
  new_TTCollection w (PosixPath.join dirpath filename) = Ok fonts ->
  get_supporting_fonts_body w code_point dirpath filename
  = (Decode (PosixPath.join dirpath filename)
       :: flat_map (ttf_path code_point) fonts, Ok tt)
  /\ yielded (events (get_supporting_fonts_body w code_point dirpath filename))
     = map get_ttf_family
           (List.filter (fun font => is_supporting_ttf font code_point) fonts)
  /\ (forall a b, fonts = [a; b] ->
        is_supporting_ttf a code_point = true ->
        is_supporting_ttf b code_point = false ->
        yielded (events (get_supporting_fonts_body w code_point dirpath filename))
        = [get_ttf_family a])
  /\ (forall a b, fonts = [a; b] ->
        is_supporting_ttf a code_point = false ->
        is_supporting_ttf b code_point = true ->
        yielded (events (get_supporting_fonts_body w code_point dirpath filename))
        = [get_ttf_family b])
  /\ (forall a, fonts = [a; a] ->
        is_supporting_ttf a code_point = true ->
        yielded (events (get_supporting_fonts_body w code_point dirpath filename))
        = [get_ttf_family a; get_ttf_family a])
  /\ (forall dirpath' filename' font,
        In (snd (PosixPath.splitext filename')) [".ttf"; ".otf"; ".woff2"] ->
        new_TTFont w (PosixPath.join dirpath' filename') = Ok font ->
        get_supporting_fonts_body w code_point dirpath' filename'
        = (Decode (PosixPath.join dirpath' filename')
             :: ttf_path code_point font, Ok tt)).
Proof.
  intros Hext Hfonts.
  rewrite (body_ttc_ok w code_point dirpath filename fonts) by assumption.
  assert (Hy : yielded (flat_map (ttf_path code_point) fonts)
               = map get_ttf_family
                     (List.filter (fun font => is_supporting_ttf font code_point) fonts)).
  { clear. induction fonts as [|font fonts IH]; [reflexivity|].
    simpl. unfold ttf_path at 1.
    destruct (is_supporting_ttf font code_point); simpl; now rewrite <- IH. }
  unfold events. simpl fst. change (yielded (Decode ?p :: ?t)) with (yielded t).
  rewrite Hy. split; [reflexivity|]. split; [reflexivity|].
  split; [|split; [|split]].
  - intros a b -> Ha Hb. simpl. now rewrite Ha, Hb.
  - intros a b -> Ha Hb. simpl. now rewrite Ha, Hb.
  - intros a -> Ha. simpl. now rewrite Ha.
  - intros dirpath' filename' font Hext' Hfont. now apply body_ttf_ok.
Qed.

(** The theorem at [pair.ttc], whose members are [sans_bold], which
    supports code point 65, and [dingbats], which does not. *)
Lemma collection_members_independent_witness :
  yielded (events (get_supporting_fonts_body corrupt_batch 65
                     "/usr/share/fonts" "pair.ttc"))
  = [("Sans", "Bold")].
Proof.
  apply (proj1 (proj2 (proj2
           (collection_members_independent corrupt_batch 65
              "/usr/share/fonts" "pair.ttc" [sans_bold; dingbats]
              eq_refl eq_refl)))
           sans_bold dingbats eq_refl); vm_compute; reflexivity.
Defined.

(** C9: for a file whose extension is [.pfa], [.pfb], [.gsf] or
    [.pcf], or [.gz] around one of these, the generator prints the
    diagnostic and does nothing else: it calls no constructor and
    yields nothing.  A file with any other extension that is not one
    of the decoded ones is passed over without any event. *)
Theorem unreadable_and_unknown_files (w : World) (code_point : Z)
    (dirpath filename : string) :
  (unreadable_extension filename ->
   get_supporting_fonts_body w code_point dirpath filename
   = ([Stderr ("Skipping unreadable " +:+ PosixPath.join dirpath filename)],
      Ok tt)
   /\ decoded (events (get_supporting_fonts_body w code_point dirpath filename)) = []
   /\ yielded (events (get_supporting_fonts_body w code_point dirpath filename)) = [])
  /\ (~ unreadable_extension filename ->
      ~ decodable_extension (snd (PosixPath.splitext filename)) ->
      get_supporting_fonts_body w code_point dirpath filename = ([], Ok tt)).
Proof.
  split.
  - intros Hun. rewrite body_not_decodable by (now apply unreadable_not_decodable).
    destruct Hun as [H | [Hgz H]]; apply unreadable_types_iff in H.
    + rewrite (bool_decide_eq_true_2 _ H). repeat split.
    + rewrite Hgz, (bool_decide_eq_true_2 _ H), orb_true_r. repeat split.
  - intros Hun Hdec. rewrite body_not_decodable by assumption.
    destruct (_ || _) eqn:E; [|reflexivity]. exfalso. apply Hun.
    apply orb_true_iff in E as [E | E].
    + left. apply bool_decide_eq_true_1 in E. now apply unreadable_types_iff.
    + right. apply andb_true_iff in E as [Egz E]. apply String.eqb_eq in Egz.
      apply bool_decide_eq_true_1 in E. split; [assumption|].
      now apply unreadable_types_iff.
Qed.

(** The theorem at [y.pcf.gz]. *)
Lemma unreadable_and_unknown_files_witness :
  get_supporting_fonts_body corrupt_batch 65 "/usr/share/fonts" "y.pcf.gz"
  = ([Stderr "Skipping unreadable /usr/share/fonts/y.pcf.gz"], Ok tt)
  /\ decoded (events (get_supporting_fonts_body corrupt_batch 65
                        "/usr/share/fonts" "y.pcf.gz")) = []
  /\ yielded (events (get_supporting_fonts_body corrupt_batch 65
                        "/usr/share/fonts" "y.pcf.gz")) = [].
Proof.
  apply (proj1 (unreadable_and_unknown_files corrupt_batch 65
                  "/usr/share/fonts" "y.pcf.gz")).
  right. split; [reflexivity | simpl; auto].
Defined.

(** * Further properties *)

(** ** The support checks *)

(** X1: Overlapping subtables are a union, whatever their order: the
    answer for the subtables of two fonts put together is the
    disjunction of the two answers, and reordering the subtables of a
    font does not change the answer. *)
Theorem is_supporting_ttf_union (font1 font2 : TTFont) (P : Z) :
  is_supporting_ttf
    {| cmap_tables := cmap_tables font1 ++ cmap_tables font2;
       names := names font1 |} P
  = is_supporting_ttf font1 P || is_supporting_ttf font2 P
  /\ (Permutation (cmap_tables font1) (cmap_tables font2) ->
      is_supporting_ttf font1 P = is_supporting_ttf font2 P).
Proof.
  unfold is_supporting_ttf. split; [apply existsb_app|].
  intros Hperm.
  set (p := fun table => isUnicode table && in_cmap P table).
  destruct (existsb p (cmap_tables font2)) eqn:E2.
  - apply existsb_exists in E2 as (t & Hin & Ht). apply existsb_exists.
    exists t. split; [|assumption].
    apply (Permutation_in t (Permutation_sym Hperm) Hin).
  - destruct (existsb p (cmap_tables font1)) eqn:E1; [|reflexivity].
    apply existsb_exists in E1 as (t & Hin & Ht).
    rewrite <- E2. symmetry. apply existsb_exists. exists t.
    split; [|assumption]. apply (Permutation_in t Hperm Hin).
Qed.

(** Two subtables in either order. *)
Lemma is_supporting_ttf_union_witness :
  is_supporting_ttf
    {| cmap_tables := cmap_tables dingbats ++ cmap_tables sans_bold; names := [] |} 65
  = is_supporting_ttf
      {| cmap_tables := cmap_tables sans_bold ++ cmap_tables dingbats; names := [] |} 65.
Proof.
  apply (proj2 (is_supporting_ttf_union
                  {| cmap_tables := cmap_tables dingbats ++ cmap_tables sans_bold;
                     names := [] |}
                  {| cmap_tables := cmap_tables sans_bold ++ cmap_tables dingbats;
                     names := [] |} 65)).
  simpl. apply perm_swap.
Defined.

Lemma is_supporting_t1_loop_true (keys : list string) (P : Z) :
  is_supporting_t1_loop keys P = Ok (Some true) <->
  exists name, In name keys /\ names_code_point name P.
Proof.
  destruct (is_supporting_t1_loop_spec keys P) as [[Hex ->] | [Hno ->]].
  - tauto.
  - split; [discriminate|]. intros (name & Hin & Hn). destruct (Hno name Hin Hn).
Qed.

(** Two glyph sets with a matching name in the one exactly when there
    is one in the other get the same result. *)
Lemma is_supporting_t1_loop_ext (keys1 keys2 : list string) (P : Z) :
  ((exists name, In name keys1 /\ names_code_point name P) <->
   (exists name, In name keys2 /\ names_code_point name P)) ->
  is_supporting_t1_loop keys1 P = is_supporting_t1_loop keys2 P.
Proof.
  intros Hiff.
  destruct (is_supporting_t1_loop_spec keys1 P) as [[H1 ->] | [H1 ->]];
    destruct (is_supporting_t1_loop_spec keys2 P) as [[H2 ->] | [H2 ->]];
    try reflexivity; exfalso.
  - apply Hiff in H1 as (name & Hin & Hn). exact (H2 name Hin Hn).
  - apply Hiff in H2 as (name & Hin & Hn). exact (H1 name Hin Hn).
Qed.

(** X2: The result of [is_supporting_t1] does not depend on the order in
    which the glyph set lists its names, and more names never turn
    [True] into [None]. *)
Theorem is_supporting_t1_order_independent (font1 font2 : T1Font) (P : Z) :
  (Permutation (glyph_names font1) (glyph_names font2) ->
   is_supporting_t1 font1 P = is_supporting_t1 font2 P)
  /\ ((forall name, In name (glyph_names font1) -> In name (glyph_names font2)) ->
      is_supporting_t1 font1 P = Ok (Some true) ->
      is_supporting_t1 font2 P = Ok (Some true)).
Proof.
  unfold is_supporting_t1. split.
  - intros Hperm. apply is_supporting_t1_loop_ext.
    split; intros (name & Hin & Hn); exists name; split; try assumption.
    + apply (Permutation_in name Hperm Hin).
    + apply (Permutation_in name (Permutation_sym Hperm) Hin).
  - intros Hincl H1. apply is_supporting_t1_loop_true.
    apply is_supporting_t1_loop_true in H1 as (name & Hin & Hn).
    exists name. auto.
Qed.

(** The glyph names [space], [A] and [A], [space]. *)
Lemma is_supporting_t1_order_independent_witness :
  is_supporting_t1 {| glyph_names := ["space"; "A"] |} 65
  = is_supporting_t1 {| glyph_names := ["A"; "space"] |} 65.
Proof.
  apply (proj1 (is_supporting_t1_order_independent
                  {| glyph_names := ["space"; "A"] |}
                  {| glyph_names := ["A"; "space"] |} 65)).
  simpl. apply perm_swap.
Defined.

(** X3: Names of more than one character that do not begin with [uni],
    such as [space] or [Aacute], and the empty name, prove nothing: a
    glyph set of such names gives [None] for every code point. *)
Theorem is_supporting_t1_conventional_names (font : T1Font) :
  (forall name, In name (glyph_names font) ->
                String.length name <> 1%nat /\ String.prefix "uni" name = false) ->
  forall P, is_supporting_t1 font P = Ok None.
Proof.
  intros Hnames P. unfold is_supporting_t1.
  destruct (is_supporting_t1_loop_spec (glyph_names font) P)
    as [[(name & Hin & Hn) _] | [_ ->]]; [exfalso | reflexivity].
  destruct (Hnames name Hin) as [Hlen Hpre].
  destruct Hn as [(c & -> & _) | (ds & -> & _)].
  - now apply Hlen.
  - change ("uni" +:+ ds) with (String "u" (String "n" (String "i" ds))) in Hpre.
    simpl in Hpre. destruct ds; discriminate.
Qed.

(** The glyph names [space], [Aacute] and [.notdef] at code point 32. *)
Lemma is_supporting_t1_conventional_names_witness :
  is_supporting_t1 {| glyph_names := ["space"; "Aacute"; ".notdef"] |} 32 = Ok None.
Proof.
  apply (is_supporting_t1_conventional_names
           {| glyph_names := ["space"; "Aacute"; ".notdef"] |}).
  simpl. intros name [<- | [<- | [<- | []]]]; split; (discriminate || reflexivity).
Defined.

Lemma hex_value_leading_zeros (zs ds : string) :
  (forall c, Py.occurs c zs -> c = "0"%char) ->
  hex_value (zs +:+ ds) = hex_value ds.
Proof.
  induction zs as [|z zs IH]; intros Hz; [reflexivity|].
  rewrite append_cons. simpl hex_value.
  rewrite (Hz z) by (simpl; auto).
  rewrite IH by (intros c Hc; apply Hz; simpl; auto).
  change (digit_value "0") with 0. lia.
Qed.

Lemma uni_name_leading_zeros (zs ds : string) (P : Z) :
  ds <> "" ->
  (forall c, Py.occurs c zs -> c = "0"%char) ->
  names_code_point ("uni" +:+ zs +:+ ds) P <-> names_code_point ("uni" +:+ ds) P.
Proof.
  intros Hne Hz. unfold names_code_point.
  assert (Hzero : upper_hex_digit "0") by (vm_compute; intuition discriminate).
  split.
  - intros [(c & Hc & _) | (ds' & Heq & _ & Hds' & Hv)].
    + discriminate Hc.
    + apply (inj (String.append "uni")) in Heq. subst ds'.
      right. exists ds. repeat split; try assumption.
      * intros c Hc. apply Hds'. apply occurs_append. auto.
      * now rewrite hex_value_leading_zeros in Hv.
  - intros [(c & Hc & _) | (ds' & Heq & _ & Hds' & Hv)].
    + discriminate Hc.
    + apply (inj (String.append "uni")) in Heq. subst ds'.
      right. exists (zs +:+ ds). repeat split.
      * destruct zs; [assumption | discriminate].
      * intros c Hc. apply occurs_append in Hc as [Hc | Hc]; [|auto].
        now rewrite (Hz c Hc).
      * now rewrite hex_value_leading_zeros.
Qed.

(** X4: The number of digits after [uni] is not fixed: zeros put before
    the digits of a name leave the code point it stands for
    unchanged, so [uni41], [uni0041] and [uni000041] are
    interchangeable in any glyph set. *)
Theorem is_supporting_t1_leading_zeros (before after : list string)
    (zs ds : string) (P : Z) :
  ds <> "" ->
  (forall c, Py.occurs c zs -> c = "0"%char) ->
  is_supporting_t1 {| glyph_names := before ++ ("uni" +:+ zs +:+ ds) :: after |} P
  = is_supporting_t1 {| glyph_names := before ++ ("uni" +:+ ds) :: after |} P.
Proof.
  intros Hne Hz. unfold is_supporting_t1. simpl.
  apply is_supporting_t1_loop_ext.
  split; intros (name & Hin & Hn); apply in_app_or in Hin as [Hin | [<- | Hin]].
  - exists name. split; [apply in_or_app; auto | assumption].
  - exists ("uni" +:+ ds). split; [apply in_or_app; simpl; auto|].
    now apply (uni_name_leading_zeros zs ds P).
  - exists name. split; [apply in_or_app; simpl; auto | assumption].
  - exists name. split; [apply in_or_app; auto | assumption].
  - exists ("uni" +:+ zs +:+ ds). split; [apply in_or_app; simpl; auto|].
    now apply (uni_name_leading_zeros zs ds P).
  - exists name. split; [apply in_or_app; simpl; auto | assumption].
Qed.

(** [uni000041] and [uni41] at code point 65. *)
Lemma is_supporting_t1_leading_zeros_witness :
  is_supporting_t1 {| glyph_names := ["B"; "uni000041"] |} 65
  = is_supporting_t1 {| glyph_names := ["B"; "uni41"] |} 65.
Proof.
  apply (is_supporting_t1_leading_zeros ["B"] [] "0000" "41" 65).
  - discriminate.
  - simpl. intros c [<- | [<- | [<- | [<- | []]]]]; reflexivity.
Defined.

(** ** Family and subfamily *)

Lemma get_ttf_family_loop_other_ids (records : list NameRecord)
    (family subfamily : string) :
  get_ttf_family_loop
    (List.filter (fun r => (nameID r =? 1) || (nameID r =? 2)) records)
    family subfamily
  = get_ttf_family_loop records family subfamily.
Proof.
  revert family subfamily.
  induction records as [|r records IH]; intros family subfamily; [reflexivity|].
  simpl. destruct (nameID r =? 1) eqn:E1; simpl.
  - rewrite E1. now rewrite IH.
  - destruct (nameID r =? 2) eqn:E2; simpl.
    + rewrite E1, E2. simpl. now rewrite IH.
    + apply IH.
Qed.

(** X5: Name records with an identifier other than 1 and 2 (full name,
    version, copyright and so on) have no part in the result, wherever
    they stand in the table. *)
Theorem get_ttf_family_other_ids (font : TTFont) :
  get_ttf_family
    {| cmap_tables := cmap_tables font;
       names := List.filter (fun r => (nameID r =? 1) || (nameID r =? 2))
                            (names font) |}
  = get_ttf_family font.
Proof. unfold get_ttf_family. simpl. apply get_ttf_family_loop_other_ids. Qed.

(** X6: The identity of a Type 1 font gives its stripped base name back:
    the subfamily holds no hyphen, and the stripped base name is the
    family alone, when the subfamily is empty, or the family, a
    hyphen and the subfamily. *)
Theorem get_t1_family_rejoin (file_path : string) :
  let base := fst (PosixPath.splitext (PosixPath.basename file_path)) in
  ~ Py.occurs "-" (snd (get_t1_family file_path))
  /\ ((base = fst (get_t1_family file_path) /\ snd (get_t1_family file_path) = "")
      \/ base = fst (get_t1_family file_path) +:+ "-"
                +:+ snd (get_t1_family file_path)).
Proof.
  intros base. unfold get_t1_family. fold base.
  destruct (rsplit1_shape "-" base) as [[Hno ->] | (l & r & Hbase & Hr & ->)]; simpl.
  - split; [tauto | left; auto].
  - split; [assumption | right; exact Hbase].
Qed.

Lemma endswith_split (c : ascii) (s : string) :
  Py.endswith c s = true -> exists s', s = s' +:+ String c "".
Proof.
  induction s as [|a s IH]; [discriminate|].
  destruct s as [|b s].
  - simpl. intros E. apply Ascii.eqb_eq in E. subst. now exists "".
  - intros E. destruct (IH E) as (s' & Hs'). exists (String a s').
    rewrite append_cons. now rewrite <- Hs'.
Qed.

Lemma basename_no_directory (f : string) :
  ~ Py.occurs "/" f -> PosixPath.basename f = f.
Proof.
  intros Hf. unfold PosixPath.basename.
  apply rfind_absent in Hf. now rewrite Hf.
Qed.

Lemma basename_join (dirpath filename : string) :
  ~ Py.occurs "/" filename ->
  PosixPath.basename (PosixPath.join dirpath filename) = filename.
Proof.
  intros Hf. unfold PosixPath.join.
  assert (Hstart : Py.startswith "/" filename = false).
  { destruct filename as [|a f]; [reflexivity|]. simpl.
    apply Ascii.eqb_neq. intros ->. apply Hf. simpl. auto. }
  rewrite Hstart. destruct (String.eqb dirpath "") eqn:Hd.
  - apply String.eqb_eq in Hd. subst. simpl. now apply basename_no_directory.
  - simpl. destruct (Py.endswith "/" dirpath) eqn:He.
    + apply endswith_split in He as (d & ->).
      rewrite append_assoc. now apply basename_in_directory.
    + now apply basename_in_directory.
Qed.

(** X7: The identity of a Type 1 font is read off the file name alone:
    the directory it is found in has no part in it, so files of the
    same name in different directories have the same identity. *)
Theorem get_t1_family_directory_independent (dirpath filename : string) :
  ~ Py.occurs "/" filename ->
  get_t1_family (PosixPath.join dirpath filename) = get_t1_family filename.
Proof.
  intros Hf. unfold get_t1_family.
  now rewrite basename_join, basename_no_directory.
Qed.

(** [Foo-Bold.t1] in [/usr/share/fonts]. *)
Lemma get_t1_family_directory_independent_witness :
  get_t1_family (PosixPath.join "/usr/share/fonts" "Foo-Bold.t1")
  = get_t1_family "Foo-Bold.t1".
Proof.
  apply (get_t1_family_directory_independent "/usr/share/fonts" "Foo-Bold.t1").
  simpl. intuition discriminate.
Defined.

(** ** The generator as a whole *)

Section WholeRun.

Variable w : World.

Lemma decoded_app (t1 t2 : list event) :
  decoded (t1 ++ t2) = decoded t1 ++ decoded t2.
Proof. unfold decoded. apply flat_map_app. Qed.

Lemma decoded_ttf_path (code_point : Z) (font : TTFont) :
  decoded (ttf_path code_point font) = [].
Proof. unfold ttf_path. now destruct (is_supporting_ttf font code_point). Qed.

Lemma decoded_members (code_point : Z) (fonts : list TTFont) :
  decoded (flat_map (ttf_path code_point) fonts) = [].
Proof.
  induction fonts as [|font fonts IH]; [reflexivity|].
  simpl. now rewrite decoded_app, decoded_ttf_path, IH.
Qed.

(** The extension decides which of the three constructors, if any,
    the body calls. *)
Lemma is_decodable_cases (filename : string) :
  let file_extension := snd (PosixPath.splitext filename) in
  (is_decodable filename = true /\
     (In file_extension [".ttf"; ".otf"; ".woff2"]
      \/ file_extension = ".ttc" \/ file_extension = ".t1"))
  \/ (is_decodable filename = false /\ ~ decodable_extension file_extension).
Proof.
  cbv zeta. unfold is_decodable, decodable_extension. cbv zeta.
  destruct (in_tuple _ [".ttf"; ".otf"; ".woff2"]) eqn:Ettf.
  { left. apply in_tuple_iff in Ettf. auto. }
  destruct (String.eqb _ ".ttc") eqn:Ettc.
  { left. apply String.eqb_eq in Ettc. auto. }
  destruct (String.eqb _ ".t1") eqn:Et1.
  { left. apply String.eqb_eq in Et1. auto. }
  right. split; [reflexivity|].
  apply String.eqb_neq in Ettc, Et1.
  assert (Hn : ~ In (snd (PosixPath.splitext filename)) [".ttf"; ".otf"; ".woff2"]).
  { intros Hin. apply in_tuple_iff in Hin. congruence. }
  simpl in *. intuition congruence.
Qed.

(** What the body does with the file system does not depend on the
    code point: it opens the file when its extension is a decodable
    one, and ends with the constructor's exception or normally. *)
Lemma body_opens (code_point : Z) (dirpath filename : string) :
  decoded (events (get_supporting_fonts_body w code_point dirpath filename))
  = (if is_decodable filename then [PosixPath.join dirpath filename] else [])
  /\ (outcome (get_supporting_fonts_body w code_point dirpath filename) = Ok tt
      \/ exists e, decode_fails w dirpath filename e
                   /\ outcome (get_supporting_fonts_body w code_point dirpath filename)
                      = Raise e).
Proof.
  destruct (is_decodable_cases filename) as [[-> Hext] | [-> Hext]].
  - destruct Hext as [Hext | [Hext | Hext]].
    + destruct (new_TTFont w (PosixPath.join dirpath filename)) as [font | e] eqn:Hf.
      * rewrite (body_ttf_ok w code_point dirpath filename font) by assumption.
        unfold events, outcome. simpl fst. simpl snd.
        change (decoded (Decode ?p :: ?t)) with (p :: decoded t).
        rewrite decoded_ttf_path. auto.
      * assert (Hfail : decode_fails w dirpath filename e) by (left; auto).
        rewrite (body_decode_fails w code_point dirpath filename e Hfail).
        split; [reflexivity | right; eauto].
    + destruct (new_TTCollection w (PosixPath.join dirpath filename)) as [fonts | e] eqn:Hf.
      * rewrite (body_ttc_ok w code_point dirpath filename fonts) by assumption.
        unfold events, outcome. simpl fst. simpl snd.
        change (decoded (Decode ?p :: ?t)) with (p :: decoded t).
        rewrite decoded_members. auto.
      * assert (Hfail : decode_fails w dirpath filename e) by (right; left; auto).
        rewrite (body_decode_fails w code_point dirpath filename e Hfail).
        split; [reflexivity | right; eauto].
    + destruct (new_T1Font w (PosixPath.join dirpath filename)) as [font | e] eqn:Hf.
      * rewrite (body_t1_ok w code_point dirpath filename font) by assumption.
        unfold events, outcome. simpl fst. simpl snd.
        split; [|auto].
        destruct (is_supporting_t1 font code_point) as [[[|]|]|e']; reflexivity.
      * assert (Hfail : decode_fails w dirpath filename e) by (right; right; auto).
        rewrite (body_decode_fails w code_point dirpath filename e Hfail).
        split; [reflexivity | right; eauto].
  - rewrite body_not_decodable by assumption.
    destruct (_ || _); split; auto.
Qed.



(** A loop that ends normally has done what its body does for each
    element, one after the other. *)
Lemma for_each_events_ok {A : Type} (l : list A) (body : A -> gen unit) :
  outcome (for_each l body) = Ok tt ->
  events (for_each l body) = flat_map (fun x => events (body x)) l.
Proof.
  induction l as [|x l IH]; cbn [for_each]; [reflexivity|].
  destruct (body x) as [t [[] | e]] eqn:Hx.
  - rewrite gen_bind_ok. unfold outcome at 1, events at 1. simpl fst. simpl snd.
    intros H. simpl. now rewrite Hx, IH.
  - rewrite gen_bind_raise. discriminate.
Qed.


Lemma body_supported_yield (code_point : Z) (dirpath filename : string)
    (i : string * string) :
  supported_identity w code_point dirpath filename i ->
  In (Yield i) (events (get_supporting_fonts_body w code_point dirpath filename)).
Proof.
  unfold supported_identity. cbv zeta.
  intros [(Hext & font & Hf & Hs & ->)
         | [(Hext & fonts & font & Hf & Hin & Hs & ->)
           | (Hext & font & Hf & Hs & ->)]].
  - rewrite (body_ttf_ok w code_point dirpath filename font) by assumption.
    unfold ttf_path. rewrite Hs. simpl. auto.
  - rewrite (body_ttc_ok w code_point dirpath filename fonts) by assumption.
    unfold events. simpl fst. right. apply in_flat_map. exists font.
    split; [assumption|]. unfold ttf_path. rewrite Hs. simpl. auto.
  - rewrite (body_t1_ok w code_point dirpath filename font) by assumption.
    rewrite Hs. simpl. auto.
Qed.

(** X9: When the search ends normally it has done, for each visited file
    in turn, what the body does for that file, and its yields are
    complete: the identities it yields are exactly those of the fonts
    of visited files whose check returned [True]. *)
Theorem get_supporting_fonts_yields_complete (code_point : Z) :
  outcome (get_supporting_fonts w code_point) = Ok tt ->
  events (get_supporting_fonts w code_point)
  = flat_map (fun '(dirpath, filename) =>
                events (get_supporting_fonts_body w code_point dirpath filename))
             (files_visited w)
  /\ forall identity,
       In (Yield identity) (events (get_supporting_fonts w code_point))
       <-> exists dirpath filename,
             In (dirpath, filename) (files_visited w)
             /\ supported_identity w code_point dirpath filename identity.
Proof.
  rewrite get_supporting_fonts_files. intros Hok.
  rewrite (for_each_events_ok _ _ Hok). split.
  - apply flat_map_ext. now intros [dirpath filename].
  - intros identity. rewrite in_flat_map. split.
    + intros ([dirpath filename] & Hin & Hy). exists dirpath, filename.
      split; [assumption|]. now apply body_yield_supported.
    + intros (dirpath & filename & Hin & Hs). exists (dirpath, filename).
      split; [assumption|]. now apply body_supported_yield.
Qed.

End WholeRun.

(** The run at [tidy_installation], where every file decodes. *)
Lemma get_supporting_fonts_yields_complete_witness :
  In (Yield ("Serif", "Italic")) (events (get_supporting_fonts tidy_installation 65))
  <-> exists dirpath filename,
        In (dirpath, filename) (files_visited tidy_installation)
        /\ supported_identity tidy_installation 65 dirpath filename ("Serif", "Italic").
Proof.
  apply (proj2 (get_supporting_fonts_yields_complete tidy_installation 65 eq_refl)).
Defined.

Section FilesOpened.

Variable w : World.



Lemma for_each_opens_prefix (code_point : Z) (l : list (string * string)) :
  exists rest,
    flat_map (fun '(dirpath, filename) =>
                if is_decodable filename then [PosixPath.join dirpath filename] else [])
             l
    = decoded (events (for_each l (fun '(dirpath, filename) =>
                 get_supporting_fonts_body w code_point dirpath filename)))
      ++ rest
    /\ (outcome (for_each l (fun '(dirpath, filename) =>
                   get_supporting_fonts_body w code_point dirpath filename)) = Ok tt ->
        rest = []).
Proof.
  induction l as [|[dirpath filename] l (rest & IHd & IHo)]; cbn [for_each flat_map].
  - exists []. auto.
  - destruct (body_opens w code_point dirpath filename) as [Hd Ho].
    rewrite <- Hd.
    destruct (get_supporting_fonts_body w code_point dirpath filename)
      as [t [[] | e]] eqn:Hbody.
    + rewrite gen_bind_ok. unfold events at 2 3, outcome at 1. simpl fst. simpl snd.
      exists rest. rewrite decoded_app, IHd, app_assoc. auto.
    + rewrite gen_bind_raise. unfold events, outcome. simpl fst. simpl snd.
      eexists. split; [reflexivity | discriminate].
Qed.

Lemma decodable_files_flat_map :
  decodable_files w
  = flat_map (fun '(dirpath, filename) =>
                if is_decodable filename then [PosixPath.join dirpath filename] else [])
             (files_visited w).
Proof.
  unfold decodable_files. induction (files_visited w) as [|[d f] l IH]; [reflexivity|].
  simpl. destruct (is_decodable f); simpl; now rewrite IH.
Qed.

(** X11: The search opens the visited files with a decodable extension,
    each once and in the order of the visit, up to the file that
    fails, and all of them when it ends normally; it opens no other
    file. *)
Theorem get_supporting_fonts_opens (code_point : Z) :
  exists rest,
    decodable_files w = decoded (events (get_supporting_fonts w code_point)) ++ rest
    /\ (outcome (get_supporting_fonts w code_point) = Ok tt -> rest = []).
Proof.
  rewrite get_supporting_fonts_files, decodable_files_flat_map.
  apply for_each_opens_prefix.
Qed.

(** X12: A Type 1 file that decodes never passes in silence: it gives
    either its identity and no diagnostic, or the diagnostic and no
    identity. *)
Theorem t1_file_yield_or_diagnostic (code_point : Z) (dirpath filename : string)
    (font : T1Font) :
  snd (PosixPath.splitext filename) = ".t1" ->
  new_T1Font w (PosixPath.join dirpath filename) = Ok font ->
  let t := events (get_supporting_fonts_body w code_point dirpath filename) in
  (yielded t = [get_t1_family (PosixPath.join dirpath filename)]
   /\ diagnostics t = [])
  \/ (yielded t = []
      /\ diagnostics t = ["Unable to determine support in "
                          +:+ PosixPath.join dirpath filename]).
Proof.
  intros Hext Hfont t. subst t.
  rewrite (body_t1_ok w code_point dirpath filename font) by assumption.
  unfold is_supporting_t1.
  destruct (is_supporting_t1_loop_spec (glyph_names font) code_point)
    as [[_ ->] | [_ ->]]; [left | right]; split; reflexivity.
Qed.

End FilesOpened.

(** [Foo-Bold.t1] of [tidy_installation], with the glyph [B] only. *)
Lemma t1_file_yield_or_diagnostic_witness :
  let t := events (get_supporting_fonts_body tidy_installation 65
                     "/home/user/.fonts" "Foo-Bold.t1") in
  (yielded t = [get_t1_family (PosixPath.join "/home/user/.fonts" "Foo-Bold.t1")]
   /\ diagnostics t = [])
  \/ (yielded t = []
      /\ diagnostics t = ["Unable to determine support in "
                          +:+ PosixPath.join "/home/user/.fonts" "Foo-Bold.t1"]).
Proof.
  apply (t1_file_yield_or_diagnostic tidy_installation 65
           "/home/user/.fonts" "Foo-Bold.t1" {| glyph_names := ["B"] |});
    reflexivity.
Defined.

(** ** The command [main] *)

Section Sorted.







Context `{Countable A} (le : relation A) `{!RelDecision le}.
Hypothesis le_transitive : Transitive le.
Hypothesis le_total : Total le.
Hypothesis le_antisym : AntiSymm (=) le.



End Sorted.






(** ** The interpreter check *)

Lemma prefix_iff (p s : string) :
  String.prefix p s = true <-> exists rest, s = p +:+ rest.
Proof.
  revert s. induction p as [|a p IH]; intros s.
  - split; [intros _; now exists s | now destruct s].
  - destruct s as [|b s]; simpl.
    + split; [discriminate | intros (rest & Hrest); discriminate Hrest].
    + destruct (Ascii.ascii_dec a b) as [<- | Hne].
      * rewrite IH. split; intros (rest & Hrest); exists rest.
        -- rewrite append_cons. now rewrite <- Hrest.
        -- rewrite append_cons in Hrest. now injection Hrest.
      * split; [discriminate|]. intros (rest & Hrest).
        rewrite append_cons in Hrest. injection Hrest as Hab _. congruence.
Qed.

(** X15: The module goes on exactly when the interpreter lies below the
    virtualenv directory: sharing the directory's path as a prefix is
    not enough, a path separator must follow it, so an interpreter in a
    sibling directory such as [py3-old] is turned away with exit
    code 1. *)
Theorem interpreter_check_below_virtualenv (VIRTUALENVS_DIR executable : string) :
  VIRTUALENVS_DIR <> "" -> Py.endswith "/" VIRTUALENVS_DIR = false ->
  (interpreter_check VIRTUALENVS_DIR executable = None
   <-> exists rest, executable = VIRTUALENVS_DIR +:+ "/" +:+ rest)
  /\ (interpreter_check VIRTUALENVS_DIR executable = Some 1
      <-> ~ exists rest, executable = VIRTUALENVS_DIR +:+ "/" +:+ rest).
Proof.
  intros Hne Hend. unfold interpreter_check, in_virtualenv, PosixPath.join.
  apply String.eqb_neq in Hne. simpl Py.startswith. cbv iota.
  rewrite Hne, Hend. simpl orb. cbv iota.
  assert (Hjoin : forall rest,
            (VIRTUALENVS_DIR +:+ "/" +:+ "") +:+ rest = VIRTUALENVS_DIR +:+ "/" +:+ rest).
  { intros rest. now rewrite !append_assoc. }
  destruct (String.prefix (VIRTUALENVS_DIR +:+ "/" +:+ "") executable) eqn:E; simpl.
  - apply prefix_iff in E as (rest & Hrest). rewrite Hjoin in Hrest.
    split; split; try discriminate; eauto.
    intros Hno. destruct Hno. eauto.
  - assert (Hno : ~ exists rest, executable = VIRTUALENVS_DIR +:+ "/" +:+ rest).
    { intros (rest & Hrest). rewrite <- Hjoin in Hrest.
      assert (String.prefix (VIRTUALENVS_DIR +:+ "/" +:+ "") executable = true)
        by (apply prefix_iff; eauto).
      congruence. }
    split; split; try discriminate; try tauto; reflexivity.
Qed.

(** An interpreter in [/p/virtualenvs/py3-old] with the virtualenv in
    [/p/virtualenvs/py3]. *)
Lemma interpreter_check_below_virtualenv_witness :
  interpreter_check "/p/virtualenvs/py3" "/p/virtualenvs/py3-old/bin/python" = Some 1
  <-> ~ exists rest,
        "/p/virtualenvs/py3-old/bin/python" = "/p/virtualenvs/py3" +:+ "/" +:+ rest.
Proof.
  apply (proj2 (interpreter_check_below_virtualenv
                  "/p/virtualenvs/py3" "/p/virtualenvs/py3-old/bin/python"
                  ltac:(discriminate) ltac:(reflexivity))).
Defined.

(** ** Files without an extension *)

Lemma splitext_no_extension (name : string) :
  ~ Py.occurs "." name -> ~ Py.occurs "/" name ->
  PosixPath.splitext name = (name, "")
  /\ PosixPath.splitext ("." +:+ name) = ("." +:+ name, "").
Proof.
  intros Hdot Hsep. unfold PosixPath.splitext. split.
  - apply rfind_absent in Hdot. rewrite Hdot.
    pose proof (rfind_lower "/" name).
    replace (Py.rfind "/" name <? -1) with false by (symmetry; apply Z.ltb_ge; lia).
    reflexivity.
  - assert (Hs : Py.rfind "/" ("." +:+ name) = -1).
    { apply rfind_absent. rewrite occurs_append. simpl.
      intros [[H | []] | H]; [discriminate | tauto]. }
    rewrite Hs.
    change ("." +:+ name) with ("" +:+ String "." name).
    rewrite rfind_split by assumption. reflexivity.
Qed.

(** X16: A file name without a dot, and a hidden file whose only dot is
    the leading one, has no extension: the search passes over it
    without opening it or printing anything, also when it is called
    [.ttf] or [.pfa]. *)
Theorem file_without_extension_skipped (w : World) (code_point : Z)
    (dirpath name : string) :
  ~ Py.occurs "." name -> ~ Py.occurs "/" name ->
  get_supporting_fonts_body w code_point dirpath name = ([], Ok tt)
  /\ get_supporting_fonts_body w code_point dirpath ("." +:+ name) = ([], Ok tt).
Proof.
  intros Hdot Hsep.
  destruct (splitext_no_extension name Hdot Hsep) as [H1 H2].
  assert (Hnd : ~ decodable_extension "").
  { unfold decodable_extension. simpl. intuition discriminate. }
  assert (Hnu : "" ∉ UNREADABLE_FILE_TYPES).
  { rewrite unreadable_types_iff. simpl. intuition discriminate. }
  split.
  - rewrite body_not_decodable by (rewrite H1; exact Hnd).
    rewrite H1. cbn [snd]. now rewrite (bool_decide_eq_false_2 _ Hnu).
  - rewrite body_not_decodable by (rewrite H2; exact Hnd).
    rewrite H2. cbn [snd]. now rewrite (bool_decide_eq_false_2 _ Hnu).
Qed.

(** The hidden file [.ttf]. *)
Lemma file_without_extension_skipped_witness :
  get_supporting_fonts_body corrupt_batch 65 "/usr/share/fonts" ("." +:+ "ttf")
  = ([], Ok tt).
Proof.
  apply (proj2 (file_without_extension_skipped corrupt_batch 65
                  "/usr/share/fonts" "ttf"
                  ltac:(simpl; intuition discriminate)
                  ltac:(simpl; intuition discriminate))).
Defined.
